(** * zustand-travel: the time-travel middleware, embedded and verified

    The middleware of [src/index.ts] sits between a host state container
    (zustand) and a history engine (the [travels] package).  This file
    embeds the middleware itself: the partition of the initial state into
    data and actions, the dispatcher [travelSet], the wiring performed by
    [travelImpl] and the subscription that republishes engine snapshots.
    The two collaborators are interfaces ([Host], [Engine]); a small
    reference instance of each is given at the end of the definitions and
    is used to run the middleware on concrete inputs. *)

From stdpp Require Import gmap strings list fin_maps pretty.

#[local] Set Warnings "-register-all".
#[local] Open Scope string_scope.

(** ** JavaScript values *)

(** Numbers are integers here: no property below does arithmetic.  A
    function value is the identity of a function object, so equality of
    two [VFun] is reference equality.  An array is an object with the
    array flag set and its elements under the keys "0", "1", ... *)
Inductive Value :=
| VUndefined
| VNull
| VBool (b : bool)
| VNum (z : Z)
| VStr (s : string)
| VFun (id : nat)
| VError (name message : string)
| VObj (array : bool) (props : gmap string Value).

(** What running a JavaScript function on one argument does: it returns
    (leaving its argument, a mutable draft, in some final state) or it
    throws. *)
Inductive Outcome :=
| Returned (draft result : Value)
| Raised (error : Value).

(** A statement or call either completes or throws a value. *)
Inductive Completion (A : Type) :=
| Normal (a : A)
| Throw (error : Value).
Arguments Normal {A} a.
Arguments Throw {A} error.

Definition typeof (v : Value) : string :=
  match v with
  | VUndefined => "undefined"
  | VNull => "object"
  | VBool _ => "boolean"
  | VNum _ => "number"
  | VStr _ => "string"
  | VFun _ => "function"
  | VError _ _ => "object"
  | VObj _ _ => "object"
  end.

(** [typeof v === 'function'] *)
Definition is_function (v : Value) : bool :=
  match v with VFun _ => true | _ => false end.

(** [v === null || v === undefined] *)
Definition nullish (v : Value) : bool :=
  match v with VUndefined | VNull => true | _ => false end.

(** [Array.isArray(v)] *)
Definition isArray (v : Value) : bool :=
  match v with VObj a _ => a | _ => false end.

(** The truth value of [v] in a condition. *)
Definition truthy (v : Value) : bool :=
  match v with
  | VUndefined | VNull => false
  | VBool b => b
  | VNum z => negb (z =? 0)%Z
  | VStr s => negb (String.eqb s "")
  | VFun _ | VError _ _ | VObj _ _ => true
  end.

Definition array_of (l : list Value) : Value :=
  VObj true (list_to_map (imap (λ i v, (pretty i, v)) l)).

(** The enumerable string-keyed properties of a value, as [for .. in],
    object spread and [Object.assign] see them: the fields of an object,
    the elements of an array, the characters of a string, and nothing
    for the other values. *)
Definition own_props (v : Value) : gmap string Value :=
  match v with
  | VObj _ m => m
  | VStr s =>
      list_to_map
        (imap (λ i a, (pretty i, VStr (String a EmptyString)))
              (String.list_ascii_of_string s))
  | _ => ∅
  end.

(** [{ ...a, ...b }]: a fresh plain object, [b] winning on shared keys. *)
Definition spread (a b : Value) : Value :=
  VObj false (own_props b ∪ own_props a).

(** [Object.assign] on a target that is an array, a string, a function
    or an error object.  What it does there turns on exotic objects (an
    array's [length], the read-only indices of a string) and on
    properties this value model has no place for, so it is an interface:
    nothing below depends on what an instance answers. *)
Class ObjectAssign := {
  assign_exotic : Value → Value → Completion Value
}.

(** [Object.assign(target, source)], as far as [target] is concerned:
    it throws on a null or undefined target, sets every enumerable
    property of [source] on a plain object, and leaves a boolean or a
    number as it was (the properties go to a wrapper object that is
    dropped).  The properties are plain data properties: the value
    model has no accessors and no prototypes. *)
Definition object_assign `{!ObjectAssign} (target source : Value)
  : Completion Value :=
  match target with
  | VUndefined | VNull =>
      Throw (VError "TypeError" "Cannot convert undefined or null to object")
  | VObj false m => Normal (VObj false (own_props source ∪ m))
  | VBool _ | VNum _ => Normal target
  | VObj true _ | VStr _ | VFun _ | VError _ _ => assign_exotic target source
  end.


(** ** The collaborators *)

(** What [travels.setState] is given: a function (by what it does to the
    draft it is called on) or a plain value. *)
Inductive Updater :=
| UFun (body : Value → Outcome)
| UValue (v : Value).

(** The navigation surface returned by [getControls()]. *)
Inductive Control :=
| Back (amount : nat)
| Forward (amount : nat)
| Go (position : nat)
| Reset
| Archive.

(** One call into the engine: its next state, the snapshots it passed to
    its subscribers during the call, in order, and the error it threw, if
    any. *)
Record Step (E : Type) := mkStep {
  next : E;
  emitted : list Value;
  raised : option Value
}.
Arguments mkStep {E}.
Arguments next {E}.
Arguments emitted {E}.
Arguments raised {E}.

(** The history engine ([Travels] of the [travels] package). *)
Class Engine (E : Type) := {
  travels_new : Value → Value → Completion E;
  travels_setState : Updater → E → Step E;
  travels_control : Control → E → Step E;
  travels_getState : E → Value
}.

(** The engine's transactional guarantee: an updater that throws on the
    current state makes [setState] throw the same value, with nothing
    committed and no subscriber called. *)
Class EngineTransactional (E : Type) `{Engine E} := {
  setState_raises : ∀ body e err,
    body (travels_getState e) = Raised err →
    travels_setState (UFun body) e = mkStep e [] (Some err)
}.

(** The engine runs a function updater on a draft of its current state
    and on nothing else: two updaters that do the same to that draft
    make [setState] take the same step. *)
Class EngineRunsOnDraft (E : Type) `{Engine E} := {
  setState_on_draft : ∀ body body' e,
    body (travels_getState e) = body' (travels_getState e) →
    travels_setState (UFun body) e = travels_setState (UFun body') e
}.

(** The host container's native setter [set(partial, replace)], as a
    function of the store's current state. *)
Class Host := {
  native_set : Value → Value → Value → Completion Value
}.

(** Replacement: [set(v, true)] with [v] not a function makes [v] the
    state of the store. *)
Class HostReplaces `{Host} := {
  native_set_replace : ∀ v state,
    is_function v = false →
    native_set v (VBool true) state = Normal v
}.

(** ** Observable events *)

Inductive Event :=
| EvNativeSet (partial replace : Value)
| EvNew (initialState options : Value)
| EvSetState (u : Updater)
| EvControl (c : Control)
| EvSubscribe
| EvActive
| EvGetControls
| EvConsoleError (message : string) (error : Value).

(** The [(initialState, options)] of every [new Travels(..)] in a log. *)
Fixpoint constructions (log : list Event) : list (Value * Value) :=
  match log with
  | [] => []
  | EvNew d o :: log => (d, o) :: constructions log
  | _ :: log => constructions log
  end.

(** The updaters of every [travels.setState(..)] in a log. *)
Fixpoint commits (log : list Event) : list Updater :=
  match log with
  | [] => []
  | EvSetState u :: log => u :: commits log
  | _ :: log => commits log
  end.

(** ** The initializer *)

(** The user's initializer [(set, get, api) => state] as the sequence of
    calls it makes before it returns or throws. *)
Inductive Initializer :=
| IReturn (v : Value)
| IThrow (error : Value)
| ISet (updater replace : Value) (rest : Initializer)
| IGet (rest : Value → Initializer).

(** ** Error values *)

Definition err_not_object (obj : Value) : Value :=
  VError "TypeError"
    ("[zustand-travel] Expected an object as initial state, received: "
       ++ typeof obj).

Definition err_array : Value :=
  VError "TypeError"
    "[zustand-travel] Expected an object as initial state, received an array".

Definition err_no_initial_state : Value :=
  VError "TypeError"
    "[zustand-travel] Initializer must return an initial state object".

Definition err_null_updater : Value :=
  VError "TypeError"
    "[zustand-travel] State updater cannot be null or undefined".

Definition err_travels_undefined : Value :=
  VError "TypeError" "Cannot read properties of undefined".

(** The spec's [InvalidInitialState] and [NullUpdater]. *)
Definition InvalidInitialState (e : Value) : Prop :=
  (∃ obj, e = err_not_object obj) ∨ e = err_array ∨ e = err_no_initial_state.

Definition NullUpdater (e : Value) : Prop := e = err_null_updater.

(** ** The middleware *)

Inductive Phase := Uninitialized | Initializing | Active.

Section Middleware.
Context {E : Type} `{!Engine E} `{!Host} `{!ObjectAssign}.

(** The build-time constant [__DEV__] (development checks on or off)
    and the behaviour of the program's function objects, by identity. *)
Variable DEV : bool.
Variable fn_body : nat → Value → Outcome.

(** The variables one store instance closes over ([isInitializing],
    [actions], [travels]), what the engine and the store handle have
    been given ([subscribed], [getControls]), the state held by the
    host store, and the log of observable events. *)
Record Closure := mkClosure {
  isInitializing : bool;
  actions : gmap string Value;
  travels : option E;
  subscribed : bool;
  getControls : bool;
  store : Value;
  log : list Event
}.

(** The closure when the state creator [(set, get, store) => ..] is
    entered: [let travels; let actions = {}; let isInitializing = true],
    the host store not yet holding a state. *)
Definition fresh : Closure :=
  mkClosure true ∅ None false false VUndefined [].

Definition phase_of (c : option Closure) : Phase :=
  match c with
  | None => Uninitialized
  | Some c => if isInitializing c then Initializing else Active
  end.

Definition record (ev : Event) (c : Closure) : Closure :=
  mkClosure (isInitializing c) (actions c) (travels c) (subscribed c)
            (getControls c) (store c) (log c ++ [ev]).

Definition with_store (s : Value) (c : Closure) : Closure :=
  mkClosure (isInitializing c) (actions c) (travels c) (subscribed c)
            (getControls c) s (log c).

Definition with_travels (e : E) (c : Closure) : Closure :=
  mkClosure (isInitializing c) (actions c) (Some e) (subscribed c)
            (getControls c) (store c) (log c).

Definition with_actions (a : gmap string Value) (c : Closure) : Closure :=
  mkClosure (isInitializing c) a (travels c) (subscribed c)
            (getControls c) (store c) (log c).

(** Statements: they read and write the closure and complete or throw. *)
Definition M (A : Type) : Type := Closure → Closure * Completion A.

Definition ret {A} (a : A) : M A := λ c, (c, Normal a).

Definition throw {A} (error : Value) : M A := λ c, (c, Throw error).

Definition bind {A B} (m : M A) (k : A → M B) : M B :=
  λ c, match m c with
       | (c', Normal a) => k a c'
       | (c', Throw error) => (c', Throw error)
       end.

(** [try { body } catch (error) { handler }] *)
Definition try_catch {A} (body : M A) (handler : Value → M A) : M A :=
  λ c, match body c with
       | (c', Normal a) => (c', Normal a)
       | (c', Throw error) => handler error c'
       end.

Definition when (b : bool) (m : M unit) : M unit :=
  if b then m else ret tt.

Definition console_error (message : string) (error : Value) : M unit :=
  λ c, (record (EvConsoleError message error) c, Normal tt).

#[local] Instance M_ret : MRet M := @ret.
#[local] Instance M_bind : MBind M := λ A B k m, bind m k.

(** *** Separate state data from action functions *)

(** [separateStateAndActions(obj)]: the development checks, then one
    pass over the keys of [obj], functions to [actions] and everything
    else to [state]. *)
Definition separateStateAndActions (obj : Value)
  : Completion (gmap string Value * gmap string Value) :=
  if DEV && (negb (truthy obj) || negb (String.eqb (typeof obj) "object"))
  then Throw (err_not_object obj)
  else if DEV && isArray obj
  then Throw err_array
  else
    Normal (filter (λ kv, is_function kv.2 = false) (own_props obj),
            filter (λ kv, is_function kv.2 = true) (own_props obj)).

(** *** Calls into the host and the engine *)

(** [set(partial, replace)] on the host store. *)
Definition set (partial replace : Value) : M unit :=
  λ c, let c := record (EvNativeSet partial replace) c in
       match native_set partial replace (store c) with
       | Normal s => (with_store s c, Normal tt)
       | Throw error => (c, Throw error)
       end.

(** The callback given to [travels.subscribe]:
    [(state) => { set({ ...state, ...actions }, true) }]. *)
Definition on_change (state : Value) : M unit :=
  λ c, set (spread state (VObj false (actions c))) (VBool true) c.

Fixpoint for_each (f : Value → M unit) (l : list Value) : M unit :=
  match l with
  | [] => ret tt
  | x :: l => f x;; for_each f l
  end.

(** The engine calling its subscribers with each snapshot of a call. *)
Definition notify (snapshots : list Value) : M unit :=
  λ c, if subscribed c then for_each on_change snapshots c
       else (c, Normal tt).

(** One call of a method of [travels]: the engine moves to its next
    state, the snapshots it emits reach the subscription, and what the
    call throws is thrown to the caller. *)
Definition travels_call (ev : Event) (method : E → Step E) : M unit :=
  λ c, match travels c with
       | None => (c, Throw err_travels_undefined)
       | Some e =>
           let r := method e in
           (notify (emitted r);;
            match raised r with
            | Some error => throw error
            | None => ret tt
            end) (with_travels (next r) (record ev c))
       end.

Definition setState (u : Updater) : M unit :=
  travels_call (EvSetState u) (travels_setState u).

(** *** The dispatcher *)

(** [(draft) => { Object.assign(draft, updater) }] *)
Definition assign_body (updater : Value) : Value → Outcome :=
  λ draft, match object_assign draft updater with
           | Normal draft' => Returned draft' VUndefined
           | Throw error => Raised error
           end.

(** [travelSet(updater, replace)] *)
Definition travelSet (updater replace : Value) : M unit :=
  λ c,
  if isInitializing c then set updater replace c
  else if DEV && nullish updater then throw err_null_updater c
  else
    try_catch
      (match updater with
       | VFun f => setState (UFun (fn_body f))
       | _ =>
           if truthy replace then setState (UValue updater)
           else setState (UFun (assign_body updater))
       end)
      (λ error,
         when DEV
           (console_error "[zustand-travel] State update failed:" error);;
         throw error)
      c.

(** *** The state creator *)

Fixpoint run_initializer (i : Initializer) : M Value :=
  match i with
  | IReturn v => ret v
  | IThrow error => throw error
  | ISet updater replace rest =>
      travelSet updater replace;; run_initializer rest
  | IGet rest => λ c, run_initializer (rest (store c)) c
  end.

Definition lift {A} (r : Completion A) : M A := λ c, (c, r).

(** [new Travels(dataState, { ...options, mutable: false })] *)
Definition new_Travels (dataState options : Value) : M unit :=
  λ c, let c := record (EvNew dataState options) c in
       match travels_new dataState options with
       | Normal e => (with_travels e c, Normal tt)
       | Throw error => (c, Throw error)
       end.

(** [actions = extractedActions] *)
Definition assign_actions (extracted : gmap string Value) : M unit :=
  λ c, (with_actions extracted c, Normal tt).

(** [isInitializing = false] *)
Definition mark_complete : M unit :=
  λ c, (record EvActive
          (mkClosure false (actions c) (travels c) (subscribed c)
                     (getControls c) (store c) (log c)), Normal tt).

(** [travels.subscribe(callback)] *)
Definition subscribe : M unit :=
  λ c, match travels c with
       | None => (c, Throw err_travels_undefined)
       | Some _ =>
           (record EvSubscribe
              (mkClosure (isInitializing c) (actions c) (travels c) true
                         (getControls c) (store c) (log c)), Normal tt)
       end.

(** [Object.assign(store, { getControls: () => travels.getControls() })] *)
Definition attach_getControls : M unit :=
  λ c, (record EvGetControls
          (mkClosure (isInitializing c) (actions c) (travels c)
                     (subscribed c) true (store c) (log c)), Normal tt).

Definition forced_options (options : Value) : Value :=
  VObj false (<["mutable" := VBool false]> (own_props options)).

(** The body of the state creator returned by [travel(initializer,
    options)], run on the closure of one store. *)
Definition travelImpl (initializer : Initializer) (options : Value)
  : M Value :=
  try_catch
    (initialState ← run_initializer initializer;
     when (DEV && nullish initialState) (throw err_no_initial_state);;
     parts ← lift (separateStateAndActions initialState);
     assign_actions parts.2;;
     new_Travels (VObj false parts.1) (forced_options options);;
     mark_complete;;
     subscribe;;
     attach_getControls;;
     ret initialState)
    (λ error,
       when DEV
         (console_error
            "[zustand-travel] Middleware initialization failed:" error);;
       throw error).

Definition travel := travelImpl.

(** The host creating a store from the state creator: it runs the
    creator once and takes what it returns as the store's first state. *)
Definition create (initializer : Initializer) (options : Value)
  : Closure * Completion Value :=
  match travel initializer options fresh with
  | (c, Normal initialState) => (with_store initialState c, Normal initialState)
  | (c, Throw error) => (c, Throw error)
  end.

(** *** Using the store *)

(** What callers do with a live store: dispatch through the [set] the
    initializer was given, or navigate with the engine's controls. *)
Inductive Op :=
| Dispatch (updater replace : Value)
| Navigate (c : Control).

Definition run_op (op : Op) : M unit :=
  match op with
  | Dispatch updater replace => travelSet updater replace
  | Navigate ctl => travels_call (EvControl ctl) (travels_control ctl)
  end.

(** A sequence of operations; an operation that throws throws to its
    own caller, and the store goes on. *)
Definition run_ops (ops : list Op) (c : Closure) : Closure :=
  foldl (λ c op, (run_op op c).1) c ops.

End Middleware.

Arguments Closure E : clear implicits.
Arguments mkClosure {E}.
Arguments Op : clear implicits.

(** ** The earlier revision of the middleware

    The repository also holds an earlier revision of [index.ts]: it has
    no development checks and no [try]/[catch], and its dispatcher tests
    [replace === true] before forwarding to the host. *)

Module Earlier.
Section Earlier.
Context {E : Type} `{!Engine E} `{!Host} `{!ObjectAssign}.
Variable fn_body : nat → Value → Outcome.

#[local] Instance M_ret : MRet (M (E:=E)) := @ret E.
#[local] Instance M_bind : MBind (M (E:=E)) := λ A B k m, bind m k.

Definition separateStateAndActions (obj : Value)
  : gmap string Value * gmap string Value :=
  (filter (λ kv, is_function kv.2 = false) (own_props obj),
   filter (λ kv, is_function kv.2 = true) (own_props obj)).

Definition travelSet (updater replace : Value) : M unit :=
  λ c,
  if isInitializing c then
    match replace with
    | VBool true => set updater (VBool true) c
    | _ => set updater replace c
    end
  else
    match updater with
    | VFun f => setState (UFun (fn_body f)) c
    | _ =>
        if truthy replace then setState (UValue updater) c
        else setState (UFun (assign_body updater)) c
    end.

Fixpoint run_initializer (i : Initializer) : M Value :=
  match i with
  | IReturn v => ret v
  | IThrow error => throw error
  | ISet updater replace rest =>
      travelSet updater replace;; run_initializer rest
  | IGet rest => λ c, run_initializer (rest (store c)) c
  end.

Definition travelImpl (initializer : Initializer) (options : Value)
  : M Value :=
  initialState ← run_initializer initializer;
  assign_actions (separateStateAndActions initialState).2;;
  new_Travels (VObj false (separateStateAndActions initialState).1)
              (forced_options options);;
  mark_complete;;
  subscribe;;
  attach_getControls;;
  ret initialState.

End Earlier.
End Earlier.

(** ** Reference collaborators *)

(** *** A host store in the manner of zustand's vanilla [setState] *)

(** [Object.is] on primitives and function identities.  Two object
    values are not taken to be the same reference. *)
Definition same_value (a b : Value) : bool :=
  match a, b with
  | VUndefined, VUndefined => true
  | VNull, VNull => true
  | VBool x, VBool y => Bool.eqb x y
  | VNum x, VNum y => (x =? y)%Z
  | VStr x, VStr y => String.eqb x y
  | VFun x, VFun y => (x =? y)%nat
  | _, _ => false
  end.

(** [nextState = typeof partial === 'function' ? partial(state) : partial];
    unless [Object.is(nextState, state)], the state becomes [nextState]
    when [replace ?? (typeof nextState !== 'object' || nextState === null)]
    and [Object.assign({}, state, nextState)] otherwise. *)
Definition zustand_setState (fn_body : nat → Value → Outcome)
    (partial replace state : Value) : Completion Value :=
  let nextState :=
    match partial with
    | VFun f =>
        match fn_body f state with
        | Returned _ result => Normal result
        | Raised error => Throw error
        end
    | _ => Normal partial
    end in
  match nextState with
  | Throw error => Throw error
  | Normal nextState =>
      if same_value nextState state then Normal state
      else if (if nullish replace
               then negb (String.eqb (typeof nextState) "object")
                    || nullish nextState
               else truthy replace)
      then Normal nextState
      else Normal (spread state nextState)
  end.

Definition zustand (fn_body : nat → Value → Outcome) : Host :=
  {| native_set := zustand_setState fn_body |}.

(** *** A history engine: a linear history, every commit archived *)

Record History := mkHistory {
  past : list Value;
  present : Value;
  future : list Value
}.

Definition timeline (h : History) : list Value :=
  rev (past h) ++ present h :: future h.

Definition position (h : History) : nat := length (past h).

(** Move to an absolute position of the timeline and tell the
    subscribers; a position outside the timeline is ignored. *)
Definition go_to (p : nat) (h : History) : Step History :=
  match timeline h !! p with
  | Some v =>
      mkStep (mkHistory (rev (take p (timeline h))) v
                        (drop (S p) (timeline h))) [v] None
  | None => mkStep h [] None
  end.

Definition commit (v : Value) (h : History) : Step History :=
  mkStep (mkHistory (present h :: past h) v []) [v] None.

(** A function updater runs on a draft of the present state: what it
    returns is the next state, and the mutated draft is when it returns
    nothing.  If it throws, nothing is committed. *)
Definition history_setState (u : Updater) (h : History) : Step History :=
  match u with
  | UValue v => commit v h
  | UFun body =>
      match body (present h) with
      | Raised error => mkStep h [] (Some error)
      | Returned draft VUndefined => commit draft h
      | Returned _ result => commit result h
      end
  end.

Definition history_control (c : Control) (h : History) : Step History :=
  match c with
  | Back n => if decide (n ≤ position h)%nat then go_to (position h - n)%nat h
              else mkStep h [] None
  | Forward n => go_to (position h + n)%nat h
  | Go p => go_to p h
  | Reset =>
      match timeline h with
      | v :: _ => mkStep (mkHistory [] v []) [v] None
      | [] => mkStep h [] None
      end
  | Archive => mkStep h [] None
  end.

#[export] Instance history_engine : Engine History := {|
  travels_new := λ initialState _, Normal (mkHistory [] initialState []);
  travels_setState := history_setState;
  travels_control := history_control;
  travels_getState := present
|}.

(** ** A counter store

    [{ count: 0, increment: () => set((state) => { state.count += 1 }) }]
    The function objects of the program: 0 is [increment], 1 is the
    updater [(state) => { state.count += 1 }], 2 is an updater that
    throws, 3 is [(draft) => { Object.assign(draft, { count: 10 }) }],
    4 is [(draft) => { draft.count = 10 }]. *)

Definition boom : Value := VError "Error" "Intentional error".

(** The drafts of the counter store are plain objects, so
    [Object.assign] meets no exotic target there; this instance only
    closes the interface. *)
#[local] Instance counter_exotic : ObjectAssign :=
  {| assign_exotic := λ target _, Normal target |}.

Definition counter_fns (f : nat) (draft : Value) : Outcome :=
  match f with
  | 1 =>
      match draft with
      | VObj a m =>
          match m !! "count" with
          | Some (VNum n) =>
              Returned (VObj a (<["count" := VNum (n + 1)]> m)) VUndefined
          | _ => Returned draft VUndefined
          end
      | _ => Returned draft VUndefined
      end
  | 2 => Raised boom
  | 3 =>
      match object_assign draft (VObj false {["count" := VNum 10]}) with
      | Normal draft' => Returned draft' VUndefined
      | Throw error => Raised error
      end
  | 4 =>
      match draft with
      | VObj a m => Returned (VObj a (<["count" := VNum 10]> m)) VUndefined
      | VFun _ | VError _ _ => Returned draft VUndefined
      | _ => Raised (VError "TypeError" "Cannot set property count")
      end
  | _ => Returned draft VUndefined
  end.

Definition counter_state (n : Z) : Value :=
  VObj false (<["count" := VNum n]> {["increment" := VFun 0]}).

Definition counter : Initializer := IReturn (counter_state 0).

#[local] Instance counter_host : Host := zustand counter_fns.

Definition counter_store (dev : bool) : Closure History :=
  (create dev counter_fns counter VUndefined).1.

Definition counter_data (n : Z) : Value :=
  VObj false {["count" := VNum n]}.

(** The engine of a counter store just created. *)
Definition counter_engine : History := mkHistory [] (counter_data 0) [].

(** [set((state) => { state.count += 1 })], as [increment()] does. *)
Definition increment : Op := Dispatch (VFun 1) VUndefined.

(** An initializer that returns the array [[1]]. *)
Definition returns_array : Initializer := IReturn (array_of [VNum 1]).

(** Options in which the caller asks for a mutable engine:
    [{ maxHistory: 3, mutable: true }]. *)
Definition caller_options : Value :=
  VObj false (<["mutable" := VBool true]> {["maxHistory" := VNum 3]}).

(** An initializer that dispatches [set({ count: 5 })] before it returns
    the counter at 5. *)
Definition seeded_counter : Initializer :=
  ISet (counter_data 5) VUndefined (IReturn (counter_state 5)).

(** "The phase becomes Active only after the subscription is
    registered", read on a log: whenever [isInitializing = false] is
    logged, [travels.subscribe(..)] has been logged before it. *)
Definition active_only_after_subscription (l : list Event) : Prop :=
  ∀ pre post, l = (pre ++ EvActive :: post)%list → EvSubscribe ∈ pre.

(** ** Notions used by the properties *)

#[local] Close Scope string_scope.

Section Properties.
Context {E : Type} `{!Engine E} `{!Host} `{!ObjectAssign}.
Variable DEV : bool.
Variable fn_body : nat → Value → Outcome.

#[local] Abbreviation Closure := (Closure E).
#[local] Abbreviation travelSet := (travelSet DEV fn_body).
#[local] Abbreviation travelImpl := (travelImpl DEV fn_body).
#[local] Abbreviation create := (create DEV fn_body).
#[local] Abbreviation run_op := (run_op DEV fn_body).
#[local] Abbreviation run_ops := (run_ops DEV fn_body).
#[local] Abbreviation run_initializer := (run_initializer DEV fn_body).

(** What the store is given for a snapshot: [{ ...snapshot, ...actions }]. *)
Definition published (a : gmap string Value) (snapshot : Value) : Value :=
  spread snapshot (VObj false a).

Definition publish (a : gmap string Value) (c : Closure) (snapshot : Value)
  : Closure :=
  with_store (published a snapshot)
    (record (EvNativeSet (published a snapshot) (VBool true)) c).

(** The closure variables that only initialization writes, and the
    engine constructions logged so far. *)
Definition same_wiring (c c' : Closure) : Prop :=
  isInitializing c' = isInitializing c
  ∧ actions c' = actions c
  ∧ subscribed c' = subscribed c
  ∧ getControls c' = getControls c
  ∧ constructions (log c') = constructions (log c)
  ∧ (travels c = None → travels c' = None).

(** The updater [travelSet] hands to the engine in the Active phase. *)
Definition routed (updater replace : Value) : Updater :=
  match updater with
  | VFun f => UFun (fn_body f)
  | _ => if truthy replace then UValue updater
         else UFun (assign_body updater)
  end.

(** [catch (error) { if (__DEV__) console.error(..); throw error }] *)
Definition rethrow {A} (message : string) (r : Closure * Completion A)
  : Closure * Completion A :=
  match r with
  | (c, Normal a) => (c, Normal a)
  | (c, Throw error) =>
      (if DEV then record (EvConsoleError message error) c else c,
       Throw error)
  end.

Definition native_only (l : list Event) : Prop :=
  Forall (λ ev, ∃ partial replace, ev = EvNativeSet partial replace) l.

(** The closure a successful initialization leaves. *)
Definition wired (c1 : Closure) (d a : gmap string Value) (options : Value)
    (e : E) : Closure :=
  mkClosure false a (Some e) true true (store c1)
    (log c1 ++ [EvNew (VObj false d) (forced_options options);
                EvActive; EvSubscribe; EvGetControls]).

(** The two halves [separateStateAndActions] makes of a value. *)
Definition dataState_of (v : Value) : gmap string Value :=
  filter (λ kv, is_function kv.2 = false) (own_props v).

Definition actions_of (v : Value) : gmap string Value :=
  filter (λ kv, is_function kv.2 = true) (own_props v).

(** Every action is a member of the store's state, under its key. *)
Definition holds_actions (c : Closure) : Prop :=
  ∀ k f, actions c !! k = Some f → own_props (store c) !! k = Some f.

(** A non-null object that is not an array. *)
Definition plain_object (v : Value) : bool :=
  String.eqb (typeof v) "object" && negb (nullish v) && negb (isArray v).

(** Two closures that differ at most in their logs. *)
Definition same_state (c c' : Closure) : Prop :=
  isInitializing c' = isInitializing c
  ∧ actions c' = actions c
  ∧ travels c' = travels c
  ∧ subscribed c' = subscribed c
  ∧ getControls c' = getControls c
  ∧ store c' = store c.


(** A host call made by the subscription for some snapshot:
    [set({ ...snapshot, ...actions }, true)]. *)
Definition republication (a : gmap string Value) (ev : Event) : Prop :=
  ∃ snapshot, ev = EvNativeSet (published a snapshot) (VBool true).

(** The events a live store may log: calls of the engine's [setState]
    and controls, the subscription's host calls, and [console.error]
    under the development checks. *)
Definition active_event (a : gmap string Value) (ev : Event) : Prop :=
  match ev with
  | EvSetState _ | EvControl _ => True
  | EvNativeSet _ _ => republication a ev
  | EvConsoleError _ _ => DEV = true
  | EvNew _ _ | EvSubscribe | EvActive | EvGetControls => False
  end.

(** [c'] has the actions of [c] and its log continues the log of [c]
    with events that satisfy [P]. *)
Definition continues (P : Event → Prop) (c c' : Closure) : Prop :=
  actions c' = actions c ∧ ∃ l, log c' = log c ++ l ∧ Forall P l.

(** ** Properties of the value model *)

Lemma same_value_eq a b : same_value a b = true → a = b.
Proof.
  destruct a, b; simpl; try discriminate; intros Hab; try reflexivity.
  - apply Bool.eqb_prop in Hab. congruence.
  - apply Z.eqb_eq in Hab. congruence.
  - apply String.eqb_eq in Hab. congruence.
  - apply Nat.eqb_eq in Hab. congruence.
Qed.

Lemma spread_is_object a b : is_function (spread a b) = false.
Proof. reflexivity. Qed.

(** In [{ ...a, ...b }] a key of [b] has [b]'s value. *)
Lemma spread_lookup_r a b k v :
  own_props b !! k = Some v → own_props (spread a b) !! k = Some v.
Proof. intros Hk. unfold spread. simpl. by apply lookup_union_Some_l. Qed.

(** In [{ ...a, ...b }] a key outside [b] has what [a] has for it. *)
Lemma spread_lookup_l a b k :
  own_props b !! k = None →
  own_props (spread a b) !! k = own_props a !! k.
Proof. intros Hk. unfold spread. simpl. by apply lookup_union_r. Qed.

Lemma constructions_app l1 l2 :
  constructions (l1 ++ l2) = constructions l1 ++ constructions l2.
Proof.
  induction l1 as [|ev l1 IH]; [done|].
  destruct ev; simpl; by rewrite ?IH.
Qed.

Lemma commits_app l1 l2 : commits (l1 ++ l2) = commits l1 ++ commits l2.
Proof.
  induction l1 as [|ev l1 IH]; [done|].
  destruct ev; simpl; by rewrite ?IH.
Qed.

(** ** Properties of the middleware *)

Lemma on_change_publishes `{!HostReplaces} snapshot c :
  on_change snapshot c = (publish (actions c) c snapshot, Normal tt).
Proof.
  unfold on_change, set, publish, published.
  by rewrite native_set_replace.
Qed.

Lemma publish_fields a c s :
  isInitializing (publish a c s) = isInitializing c
  ∧ actions (publish a c s) = actions c
  ∧ travels (publish a c s) = travels c
  ∧ subscribed (publish a c s) = subscribed c
  ∧ getControls (publish a c s) = getControls c.
Proof. done. Qed.

Lemma for_each_on_change `{!HostReplaces} snapshots c :
  for_each on_change snapshots c
  = (foldl (publish (actions c)) c snapshots, Normal tt).
Proof.
  revert c. induction snapshots as [|s l IH]; intros c; [done|].
  cbn [for_each foldl]. unfold mbind, M_bind, bind.
  rewrite on_change_publishes, IH. done.
Qed.

Lemma foldl_publish_fields a snapshots c :
  let c' := foldl (publish a) c snapshots in
  isInitializing c' = isInitializing c
  ∧ actions c' = actions c
  ∧ travels c' = travels c
  ∧ subscribed c' = subscribed c
  ∧ getControls c' = getControls c
  ∧ log c' = log c ++ map (λ s, EvNativeSet (published a s) (VBool true))
                          snapshots
  ∧ store c' = default (store c) (published a <$> last snapshots).
Proof.
  revert c. induction snapshots as [|s l IH]; intros c; cbn [foldl].
  - simpl. by rewrite app_nil_r.
  - specialize (IH (publish a c s)). cbn zeta in *.
    destruct IH as (-> & -> & -> & -> & -> & -> & ->).
    repeat split.
    + simpl. by rewrite <- app_assoc.
    + destruct l as [|s' l]; [done|].
      change (last (s :: s' :: l)) with (last (s' :: l)).
      destruct (last (s' :: l)) eqn:Hl; [done|].
      by apply last_None in Hl.
Qed.

(** *** What the calls leave alone *)

Lemma same_wiring_refl c : same_wiring c c.
Proof. by repeat split. Qed.

Lemma same_wiring_trans c1 c2 c3 :
  same_wiring c1 c2 → same_wiring c2 c3 → same_wiring c1 c3.
Proof.
  intros (?&?&?&?&?&?) (?&?&?&?&?&?).
  repeat split; try congruence. auto.
Qed.

Lemma same_wiring_bind {A B} (m : M A) (k : A → M B) c :
  same_wiring c (m c).1 →
  (∀ a c', same_wiring c' (k a c').1) →
  same_wiring c (bind m k c).1.
Proof.
  intros Hm Hk. unfold bind. destruct (m c) as [c' [a|error]]; [|done].
  eapply same_wiring_trans; [exact Hm | apply Hk].
Qed.

Lemma set_same_wiring partial replace c :
  same_wiring c (set partial replace c).1.
Proof.
  unfold set. destruct (native_set _ _ _); repeat split; simpl;
    rewrite ?constructions_app; simpl; by rewrite ?app_nil_r.
Qed.

Lemma for_each_same_wiring f l c :
  (∀ x c', same_wiring c' (f x c').1) →
  same_wiring c (for_each f l c).1.
Proof.
  intros Hf. revert c. induction l as [|x l IH]; intros c.
  - apply same_wiring_refl.
  - cbn [for_each]. apply same_wiring_bind; [apply Hf | intros _; apply IH].
Qed.

Lemma notify_same_wiring snapshots c :
  same_wiring c (notify snapshots c).1.
Proof.
  unfold notify. destruct (subscribed c); [|apply same_wiring_refl].
  apply for_each_same_wiring. intros s c'. apply set_same_wiring.
Qed.

Lemma travels_call_same_wiring ev method c :
  (∀ d o, ev ≠ EvNew d o) →
  same_wiring c (travels_call ev method c).1.
Proof.
  intros Hev. unfold travels_call.
  destruct (travels c) as [e|] eqn:He; [|apply same_wiring_refl].
  set (c1 := with_travels _ _).
  assert (H1 : same_wiring c c1).
  { repeat split; simpl; [|congruence].
    rewrite constructions_app. destruct ev; simpl;
      rewrite ?app_nil_r; try done. by destruct (Hev initialState options). }
  eapply same_wiring_trans; [exact H1|].
  apply same_wiring_bind; [apply notify_same_wiring|].
  intros _ c'. destruct (raised _); apply same_wiring_refl.
Qed.

Lemma travelSet_active updater replace c :
  isInitializing c = false →
  travelSet updater replace c =
    if DEV && nullish updater then (c, Throw err_null_updater)
    else rethrow "[zustand-travel] State update failed:"
           (setState (routed updater replace) c).
Proof.
  intros Hc. unfold travelSet. rewrite Hc.
  destruct (DEV && nullish updater); [done|].
  unfold try_catch, rethrow.
  replace (match updater with
           | VFun f => setState (UFun (fn_body f))
           | _ => if truthy replace then setState (UValue updater)
                  else setState (UFun (assign_body updater))
           end) with (setState (routed updater replace))
    by (unfold routed; destruct updater; try done; by destruct (truthy replace)).
  destruct (setState _ c) as [c' [[]|error]]; [done|].
  by destruct DEV.
Qed.

Lemma travelSet_initializing updater replace c :
  isInitializing c = true →
  travelSet updater replace c = set updater replace c.
Proof. intros Hc. unfold travelSet. by rewrite Hc. Qed.

Lemma rethrow_same_wiring {A} message c (r : Closure * Completion A) :
  same_wiring c r.1 → same_wiring c (rethrow message r).1.
Proof.
  destruct r as [c' [a|error]]; [done|]. simpl. destruct DEV; [|done].
  intros (?&?&?&?&?&?). repeat split; simpl; try done.
  by rewrite constructions_app, app_nil_r.
Qed.

Lemma travelSet_same_wiring updater replace c :
  same_wiring c (travelSet updater replace c).1.
Proof.
  destruct (isInitializing c) eqn:Hc.
  - rewrite travelSet_initializing by done. apply set_same_wiring.
  - rewrite travelSet_active by done.
    destruct (DEV && nullish updater); [apply same_wiring_refl|].
    apply rethrow_same_wiring, travels_call_same_wiring. done.
Qed.

Lemma run_op_same_wiring op c : same_wiring c (run_op op c).1.
Proof.
  destruct op; simpl.
  - apply travelSet_same_wiring.
  - by apply travels_call_same_wiring.
Qed.

Lemma run_ops_same_wiring ops c : same_wiring c (run_ops ops c).
Proof.
  revert c. induction ops as [|op ops IH]; intros c.
  - apply same_wiring_refl.
  - eapply same_wiring_trans; [apply (run_op_same_wiring op)|apply IH].
Qed.

(** *** Engine calls on a subscribed store *)

Lemma travels_call_subscribed `{!HostReplaces} ev method c e :
  travels c = Some e →
  subscribed c = true →
  travels_call ev method c =
    (foldl (publish (actions c))
           (with_travels (next (method e)) (record ev c))
           (emitted (method e)),
     match raised (method e) with
     | Some error => Throw error
     | None => Normal tt
     end).
Proof.
  intros He Hs. unfold travels_call. rewrite He.
  unfold mbind, M_bind, bind, notify. simpl. rewrite Hs.
  rewrite for_each_on_change. simpl.
  by destruct (raised (method e)).
Qed.

(** C1.  Whatever call makes the engine emit snapshots ([method],
    logged as [ev]), on a store whose subscription is registered the
    host is given, for each emitted snapshot in order, the object
    [{ ...snapshot, ...actions }] with [replace = true]; after the call
    the store holds that object for the last snapshot: every action is
    in it, a key that is neither in the snapshot nor an action is not,
    and every other key has the snapshot's value. *)
Theorem snapshots_republished_by_replacement `{!HostReplaces}
    ev method (c : Closure) e :
  travels c = Some e →
  subscribed c = true →
  let r := method e in
  let c' := (travels_call ev method c).1 in
  log c' =
    log c ++ ev :: map (λ s, EvNativeSet (spread s (VObj false (actions c)))
                                         (VBool true)) (emitted r)
  ∧ actions c' = actions c
  ∧ ∀ s, last (emitted r) = Some s →
      store c' = spread s (VObj false (actions c))
      ∧ (∀ k f, actions c !! k = Some f →
                own_props (store c') !! k = Some f)
      ∧ (∀ k, own_props s !! k = None → actions c !! k = None →
              own_props (store c') !! k = None)
      ∧ (∀ k, actions c !! k = None →
              own_props (store c') !! k = own_props s !! k).
Proof.
  intros He Hs r c'. subst r c'.
  rewrite (travels_call_subscribed _ _ _ e) by done. cbn [fst].
  pose proof (foldl_publish_fields (actions c) (emitted (method e))
                (with_travels (next (method e)) (record ev c))) as Hf.
  cbn zeta in Hf. destruct Hf as (_ & Ha & _ & _ & _ & Hl & Hst).
  split; [|split].
  - rewrite Hl. unfold published. cbn [log with_travels record].
    by rewrite <- app_assoc.
  - by rewrite Ha.
  - intros s Hlast. rewrite Hst, Hlast. simpl.
    split; [done|]. unfold published. split; [|split].
    + intros k f Hk. by apply lookup_union_Some_l.
    + intros k Hk Ha'. by rewrite lookup_union_r.
    + intros k Ha'. by rewrite lookup_union_r.
Qed.

(** *** The dispatcher *)

(** C4.  While [isInitializing] holds, [travelSet(updater, replace)] is
    the host's [set(updater, replace)]: the host is called once with
    the same two arguments, the engine variable is not touched and no
    [travels.setState] is made. *)
Theorem initializing_dispatch_bypasses_engine (c : Closure) updater replace :
  isInitializing c = true →
  let r := travelSet updater replace c in
  r = set updater replace c
  ∧ log r.1 = log c ++ [EvNativeSet updater replace]
  ∧ travels r.1 = travels c
  ∧ commits (log r.1) = commits (log c)
  ∧ constructions (log r.1) = constructions (log c).
Proof.
  intros Hc r. subst r. rewrite travelSet_initializing by done.
  split; [done|]. unfold set.
  destruct (native_set _ _ _); simpl;
    rewrite commits_app, constructions_app; simpl;
    by rewrite !app_nil_r.
Qed.

(** C7, as amended.  With the development checks on and the store in
    the Active phase, a null or undefined updater makes [travelSet]
    throw the [NullUpdater] error at once: the closure (store state,
    engine, log) is exactly as before, so no engine call was made. *)
Theorem null_updater_rejected_when_active (c : Closure) updater replace :
  DEV = true →
  isInitializing c = false →
  nullish updater = true →
  travelSet updater replace c = (c, Throw err_null_updater)
  ∧ NullUpdater err_null_updater.
Proof.
  intros Hdev Hc Hu. rewrite travelSet_active by done.
  by rewrite Hdev, Hu.
Qed.

(** C8.  In the Active phase, when the function given as updater
    throws [err] on the engine's current state (and the engine is
    transactional), [travelSet] throws that same [err]; the store's
    state, the actions and the engine's state are what they were, and
    the log gains the [setState] call and, under the development
    checks, the [console.error]. *)
Theorem updater_exception_propagates `{!EngineTransactional E}
    (c : Closure) e f replace err :
  isInitializing c = false →
  travels c = Some e →
  fn_body f (travels_getState e) = Raised err →
  let r := travelSet (VFun f) replace c in
  r.2 = Throw err
  ∧ store r.1 = store c
  ∧ travels r.1 = Some e
  ∧ actions r.1 = actions c
  ∧ log r.1 =
      log c ++ EvSetState (UFun (fn_body f))
        :: (if DEV
            then [EvConsoleError "[zustand-travel] State update failed:" err]
            else []).
Proof.
  intros Hc He Hf r. subst r. rewrite travelSet_active by done.
  replace (DEV && nullish (VFun f)) with false by by destruct DEV.
  unfold routed, setState, travels_call. rewrite He.
  rewrite (setState_raises _ _ _ Hf).
  unfold mbind, M_bind, bind, notify. simpl.
  destruct (subscribed c); simpl; destruct DEV; simpl;
    rewrite <- ?app_assoc; done.
Qed.

(** C10.  While [isInitializing] holds, a null or undefined updater is
    not checked: [travelSet] is the host's [set] on the same two
    arguments, so the call throws only what the host's setter throws. *)
Theorem null_updater_forwarded_when_initializing
    (c : Closure) updater replace :
  isInitializing c = true →
  nullish updater = true →
  let r := travelSet updater replace c in
  r = set updater replace c
  ∧ log r.1 = log c ++ [EvNativeSet updater replace]
  ∧ r.2 = match native_set updater replace (store c) with
          | Normal _ => Normal tt
          | Throw error => Throw error
          end.
Proof.
  intros Hc _ r. subst r. rewrite travelSet_initializing by done.
  split; [done|]. unfold set. by destruct (native_set _ _ _).
Qed.

(** *** Initialization *)

Lemma native_only_constructions l : native_only l → constructions l = [].
Proof.
  induction 1 as [|ev l (p & r & ->) _ IH]; [done|]. exact IH.
Qed.

Lemma native_only_commits l : native_only l → commits l = [].
Proof.
  induction 1 as [|ev l (p & r & ->) _ IH]; [done|]. exact IH.
Qed.

Lemma native_only_not_active l : native_only l → EvActive ∉ l.
Proof.
  intros Hl Hin. eapply Forall_forall in Hl as (p & r & Heq); [|exact Hin].
  discriminate.
Qed.

(** While it runs, the initializer's dispatches only reach the host. *)
Lemma run_initializer_spec i (c : Closure) :
  isInitializing c = true →
  let r := run_initializer i c in
  isInitializing r.1 = true
  ∧ actions r.1 = actions c
  ∧ travels r.1 = travels c
  ∧ subscribed r.1 = subscribed c
  ∧ getControls r.1 = getControls c
  ∧ ∃ l, log r.1 = log c ++ l ∧ native_only l.
Proof.
  revert c. induction i as [v|error|updater replace rest IH|rest IH];
    intros c Hc; cbn [run_initializer].
  - simpl. split_and!; try done. exists [].
    split; [by rewrite app_nil_r | constructor].
  - simpl. split_and!; try done. exists [].
    split; [by rewrite app_nil_r | constructor].
  - unfold mbind, M_bind, bind.
    rewrite travelSet_initializing by done.
    assert (Hset : ∀ c1 r1, set updater replace c = (c1, r1) →
              isInitializing c1 = true ∧ actions c1 = actions c
              ∧ travels c1 = travels c ∧ subscribed c1 = subscribed c
              ∧ getControls c1 = getControls c
              ∧ log c1 = log c ++ [EvNativeSet updater replace]).
    { unfold set. intros c1 r1.
      destruct (native_set _ _ _); intros [= <- <-]; by repeat split. }
    destruct (set updater replace c) as [c1 [[]|error]] eqn:Hs;
      destruct (Hset _ _ eq_refl) as (H1 & H2 & H3 & H4 & H5 & H6).
    + destruct (IH c1 H1) as (?&?&?&?&?& l & Hl & Hn). cbn zeta in *.
      split_and!; try congruence.
      exists (EvNativeSet updater replace :: l). split.
      * rewrite Hl, H6. by rewrite <- app_assoc.
      * constructor; [eauto|done].
    + simpl. split_and!; try done.
      exists [EvNativeSet updater replace]. split; [done|].
      constructor; [eauto|constructor].
  - by apply IH.
Qed.

Lemma travelImpl_unfold i options (c : Closure) :
  travelImpl i options c =
    rethrow "[zustand-travel] Middleware initialization failed:"
      match run_initializer i c with
      | (c1, Throw error) => (c1, Throw error)
      | (c1, Normal v) =>
          if DEV && nullish v then (c1, Throw err_no_initial_state)
          else
            match separateStateAndActions DEV v with
            | Throw error => (c1, Throw error)
            | Normal parts =>
                match travels_new (VObj false parts.1)
                                  (forced_options options) with
                | Throw error =>
                    (record (EvNew (VObj false parts.1)
                                   (forced_options options))
                            (with_actions parts.2 c1), Throw error)
                | Normal e =>
                    (wired c1 parts.1 parts.2 options e, Normal v)
                end
            end
      end.
Proof.
  unfold travelImpl, try_catch, rethrow, mbind, M_bind, bind.
  destruct (run_initializer i c) as [c1 [v|error]]; [|by destruct DEV].
  unfold when. destruct (DEV && nullish v) eqn:Hn.
  { unfold throw. by destruct DEV. }
  unfold ret, lift. destruct (separateStateAndActions DEV v) as [parts|error];
    [|by destruct DEV].
  unfold assign_actions, new_Travels.
  destruct (travels_new _ _) as [e|error]; [|by destruct DEV].
  unfold wired. simpl. unfold record. simpl. by rewrite <- !app_assoc.
Qed.

Lemma separate_Normal v parts :
  separateStateAndActions DEV v = Normal parts →
  parts = (dataState_of v, actions_of v).
Proof.
  unfold separateStateAndActions.
  destruct (DEV && _); [done|]. destruct (DEV && _); [done|].
  by intros [= <-].
Qed.

(** [travelImpl] in all its outcomes: what is logged before the engine
    is constructed comes from the initializer alone. *)
Lemma travelImpl_cases i options :
  let r := travelImpl i options fresh in
  ∃ c1 l, native_only l ∧ log c1 = l ∧ isInitializing c1 = true
          ∧ travels c1 = None ∧ subscribed c1 = false ∧
    ((∃ v e, run_initializer i fresh = (c1, Normal v)
             ∧ DEV && nullish v = false
             ∧ separateStateAndActions DEV v
               = Normal (dataState_of v, actions_of v)
             ∧ travels_new (VObj false (dataState_of v))
                           (forced_options options) = Normal e
             ∧ r = (wired c1 (dataState_of v) (actions_of v) options e,
                    Normal v))
     ∨ (∃ v err, run_initializer i fresh = (c1, Normal v)
             ∧ separateStateAndActions DEV v
               = Normal (dataState_of v, actions_of v)
             ∧ travels_new (VObj false (dataState_of v))
                           (forced_options options) = Throw err
             ∧ r = rethrow
                     "[zustand-travel] Middleware initialization failed:"
                     (record (EvNew (VObj false (dataState_of v))
                                    (forced_options options))
                             (with_actions (actions_of v) c1), Throw err))
     ∨ (∃ err, r = rethrow
                     "[zustand-travel] Middleware initialization failed:"
                     (c1, Throw err)
             ∧ (run_initializer i fresh = (c1, Throw err)
                ∨ ∃ v, run_initializer i fresh = (c1, Normal v)
                       ∧ ((DEV && nullish v = true
                           ∧ err = err_no_initial_state)
                          ∨ (DEV && nullish v = false
                             ∧ separateStateAndActions DEV v
                               = Throw err))))).
Proof.
  intros r. subst r. rewrite travelImpl_unfold.
  pose proof (run_initializer_spec i fresh eq_refl) as Hi. cbn zeta in Hi.
  destruct (run_initializer i fresh) as [c1 r1] eqn:Hrun. cbn [fst] in Hi.
  destruct Hi as (Hinit & _ & Ht & Hs & _ & l & Hl & Hn). simpl in Hl.
  exists c1, l. split_and!; try done.
  destruct r1 as [v|err].
  - destruct (DEV && nullish v) eqn:Hnull.
    { right. right. exists err_no_initial_state. split.
      - unfold rethrow. by destruct DEV.
      - right. exists v. split; [done|]. by left. }
    destruct (separateStateAndActions DEV v) as [parts|err] eqn:Hsep.
    + apply separate_Normal in Hsep as Hparts. subst parts. cbn [fst snd].
      destruct (travels_new _ _) as [e|err] eqn:Hnew.
      * left. exists v, e. by split_and!.
      * right. left. exists v, err. split_and!; try done.
    + right. right. exists err. split.
      * unfold rethrow. by destruct DEV.
      * right. exists v. split; [done|]. by right.
  - right. right. exists err. split.
    + unfold rethrow. by destruct DEV.
    + by left.
Qed.

(** The host keeps what the state creator returns as its state; the
    rest of the closure is as [travelImpl] left it. *)
Lemma create_travelImpl i options :
  let r := create i options in
  let r' := travelImpl i options fresh in
  r.2 = r'.2
  ∧ log r.1 = log r'.1
  ∧ isInitializing r.1 = isInitializing r'.1
  ∧ actions r.1 = actions r'.1
  ∧ travels r.1 = travels r'.1
  ∧ subscribed r.1 = subscribed r'.1.
Proof.
  unfold create, travel.
  by destruct (travelImpl i options fresh) as [c [v|error]].
Qed.

Lemma create_success i options c v :
  create i options = (c, Normal v) →
  ∃ c1 e, run_initializer i fresh = (c1, Normal v)
          ∧ native_only (log c1)
          ∧ DEV && nullish v = false
          ∧ separateStateAndActions DEV v
            = Normal (dataState_of v, actions_of v)
          ∧ travels_new (VObj false (dataState_of v))
                        (forced_options options) = Normal e
          ∧ c = with_store v
                  (wired c1 (dataState_of v) (actions_of v) options e).
Proof.
  unfold create, travel. intros Hc.
  destruct (travelImpl_cases i options)
    as (c1 & l & Hn & Hl & _ & _ & _ & Hcases).
  cbn zeta in Hcases.
  destruct Hcases as [(v' & e & Hrun & Hnull & Hsep & Hnew & Heq)
                     |[(v' & err & _ & _ & _ & Heq)|(err & Heq & _)]];
    rewrite Heq in Hc.
  - injection Hc as <- <-. exists c1, e. subst l. by split_and!.
  - unfold rethrow in Hc. by destruct DEV.
  - unfold rethrow in Hc. by destruct DEV.
Qed.

(** *** The store after initialization *)

Lemma rethrow_store {A} message (r : Closure * Completion A) :
  store (rethrow message r).1 = store r.1.
Proof. destruct r as [c [a|error]]; [done|]. simpl. by destruct DEV. Qed.

Lemma travels_call_store `{!HostReplaces} ev method (c : Closure) :
  subscribed c = true →
  store (travels_call ev method c).1 = store c
  ∨ ∃ s, store (travels_call ev method c).1 = published (actions c) s.
Proof.
  intros Hs. destruct (travels c) as [e|] eqn:He.
  - rewrite (travels_call_subscribed _ _ _ e) by done. cbn [fst].
    pose proof (foldl_publish_fields (actions c) (emitted (method e))
                  (with_travels (next (method e)) (record ev c))) as Hf.
    cbn zeta in Hf. destruct Hf as (_ & _ & _ & _ & _ & _ & ->).
    destruct (last (emitted (method e))) as [s|]; simpl; eauto.
  - left. unfold travels_call. by rewrite He.
Qed.

(** In the Active phase one operation leaves the store's state as it
    was or replaces it by a published snapshot. *)
Lemma run_op_store `{!HostReplaces} op (c : Closure) :
  isInitializing c = false →
  subscribed c = true →
  store (run_op op c).1 = store c
  ∨ ∃ s, store (run_op op c).1 = published (actions c) s.
Proof.
  intros Hc Hs. destruct op as [updater replace|ctl]; simpl.
  - rewrite travelSet_active by done.
    destruct (DEV && nullish updater); [by left|].
    rewrite rethrow_store. by apply travels_call_store.
  - by apply travels_call_store.
Qed.

Lemma run_ops_holds_actions `{!HostReplaces} ops (c : Closure) :
  isInitializing c = false →
  subscribed c = true →
  holds_actions c →
  holds_actions (run_ops ops c).
Proof.
  revert c. induction ops as [|op ops IH]; intros c Hc Hs Hh; [done|].
  cbn [run_ops foldl].
  destruct (run_op_same_wiring op c) as (Hi & Ha & Hsub & _).
  apply IH; [congruence|congruence|].
  intros k f. rewrite Ha. intros Hk.
  destruct (run_op_store op c Hc Hs) as [->|[s ->]]; [by apply Hh|].
  unfold published. by apply spread_lookup_r.
Qed.

(** C2.  After a successful [create], the actions are the function
    members of the initializer's result, and they stay so: after any
    sequence of dispatches and navigations the [actions] variable is
    unchanged, and each action read from the store's state under its
    key is the very function value the initializer returned there. *)
Theorem behavior_set_fixed `{!HostReplaces} i options (c0 : Closure) v ops :
  create i options = (c0, Normal v) →
  let c := run_ops ops c0 in
  actions c0 = filter (λ kv, is_function kv.2 = true) (own_props v)
  ∧ actions c = actions c0
  ∧ ∀ k f, actions c0 !! k = Some f →
      is_function f = true
      ∧ own_props v !! k = Some f
      ∧ own_props (store c) !! k = Some f.
Proof.
  intros Hcreate c.
  destruct (create_success _ _ _ _ Hcreate)
    as (c1 & e & _ & _ & _ & _ & _ & ->).
  set (c0 := with_store v _) in *.
  assert (Hmember : ∀ k f, actions c0 !! k = Some f →
            is_function f = true ∧ own_props v !! k = Some f).
  { intros k f Hk. simpl in Hk. unfold actions_of in Hk.
    apply map_lookup_filter_Some in Hk as [Hk Hf]. done. }
  split; [done|]. split; [apply run_ops_same_wiring|].
  intros k f Hk. destruct (Hmember k f Hk) as [Hf Hv].
  assert (Hh : holds_actions (run_ops ops c0)).
  { apply run_ops_holds_actions; [done|done|].
    intros k' f' Hk'. simpl. by apply Hmember. }
  split_and!; [done|done|]. apply Hh.
  destruct (run_ops_same_wiring ops c0) as (_ & -> & _). exact Hk.
Qed.

(** C5, as amended.  A store's phase starts at [Uninitialized], is
    [Initializing] when the state creator is entered, and is [Active]
    after [travelImpl] only if the engine was constructed: the flag is
    cleared right after the successful [new Travels(..)] and right
    before [travels.subscribe(..)], which the same run then makes.
    Once [Active], no sequence of operations changes the phase. *)
Theorem phase_active_after_engine_constructed i options :
  let r := travelImpl i options fresh in
  phase_of (E:=E) None = Uninitialized
  ∧ phase_of (Some (fresh : Closure)) = Initializing
  ∧ (phase_of (Some r.1) = Active →
     ∃ pre d o e,
       log r.1 = pre ++ [EvNew d o; EvActive; EvSubscribe; EvGetControls]
       ∧ (EvActive ∉ pre)
       ∧ travels_new d o = Normal e
       ∧ travels r.1 = Some e
       ∧ subscribed r.1 = true)
  ∧ (∀ ops (c : Closure),
       phase_of (Some c) = Active →
       phase_of (Some (run_ops ops c)) = Active).
Proof.
  intros r. split; [done|]. split; [done|]. split.
  - pose proof (travelImpl_cases i options) as Hcases. cbn zeta in Hcases.
    fold r in Hcases.
    destruct Hcases as (c1 & l & Hn & Hl & Hinit & _ & _ & Hcases).
    unfold phase_of.
    destruct Hcases as [(v & e & _ & _ & _ & Hnew & ->)
                       |[(v & err & _ & _ & _ & ->)|(err & -> & _)]].
    + intros _. eexists l, _, _, e. simpl. rewrite Hl.
      split_and!; try done. by apply native_only_not_active.
    + unfold rethrow. destruct DEV; simpl; by rewrite Hinit.
    + unfold rethrow. destruct DEV; simpl; by rewrite Hinit.
  - intros ops c. unfold phase_of.
    destruct (run_ops_same_wiring ops c) as (-> & _).
    done.
Qed.

(** *** Validation of the initial state *)

Lemma separate_rejects v :
  plain_object v = false →
  separateStateAndActions true v = Throw (err_not_object v)
  ∨ separateStateAndActions true v = Throw err_array.
Proof.
  unfold plain_object, separateStateAndActions.
  destruct v as [| | | | | | |[] m]; simpl; try discriminate; auto.
  all: intros _; rewrite orb_true_r; auto.
Qed.

Lemma rethrow_constructions {A} message (c : Closure) (x : Completion A) :
  constructions (log (rethrow message (c, x)).1) = constructions (log c).
Proof.
  destruct x as [a|err]; [done|]. simpl. destruct DEV; [|done]. simpl.
  by rewrite constructions_app, app_nil_r.
Qed.

(** C6, as amended.  With the development checks on, an initializer
    that returns a value which is not a non-null, non-array object
    makes [create] throw an [InvalidInitialState] error; no
    [new Travels(..)] has been made, the engine variable is still
    unset and the store is still [Initializing]. *)
Theorem invalid_initial_state_rejected i options (c1 : Closure) v :
  DEV = true →
  run_initializer i fresh = (c1, Normal v) →
  plain_object v = false →
  let r := create i options in
  ∃ err, r.2 = Throw err
         ∧ InvalidInitialState err
         ∧ constructions (log r.1) = []
         ∧ travels r.1 = None
         ∧ isInitializing r.1 = true.
Proof.
  intros Hdev Hrun Hv r.
  destruct (create_travelImpl i options) as (H2 & Hlog & Hi & _ & Ht & _).
  fold r in H2, Hlog, Hi, Ht. rewrite H2, Hlog, Hi, Ht. clear r H2 Hlog Hi Ht.
  destruct (travelImpl_cases i options)
    as (c1' & l & Hn & Hl & Hinit & Htr & _ & Hcases).
  cbn zeta in Hcases. rewrite Hrun in Hcases.
  pose proof (separate_rejects v Hv) as Hsep. rewrite <- Hdev in Hsep.
  assert (Hfail : ∀ err, InvalidInitialState err →
            travelImpl i options fresh =
              rethrow "[zustand-travel] Middleware initialization failed:"
                (c1', Throw err) →
            ∃ err, (travelImpl i options fresh).2 = Throw err
                   ∧ InvalidInitialState err
                   ∧ constructions (log (travelImpl i options fresh).1) = []
                   ∧ travels (travelImpl i options fresh).1 = None
                   ∧ isInitializing (travelImpl i options fresh).1 = true).
  { intros err Herr ->. exists err. rewrite rethrow_constructions.
    unfold rethrow. split_and!; try done.
    - rewrite Hl. by apply native_only_constructions.
    - by destruct DEV.
    - by destruct DEV. }
  destruct Hcases as [(v' & e & [= <- <-] & _ & Hs & _)
                     |[(v' & err & [= <- <-] & Hs & _)
                      |(err & Heq & [[=]|(v' & [= <- <-] & Hwhy)])]].
  - destruct Hsep as [Hsep|Hsep]; congruence.
  - destruct Hsep as [Hsep|Hsep]; congruence.
  - apply (Hfail err); [|done].
    destruct Hwhy as [[_ ->]|[_ Hs]].
    + right. by right.
    + destruct Hsep as [Hsep|Hsep]; rewrite Hsep in Hs;
        injection Hs as <-; [left; by eexists | right; by left].
Qed.

(** *** Construction of the engine *)

Lemma accepted_separates v :
  DEV = false ∨ plain_object v = true →
  DEV && nullish v = false
  ∧ separateStateAndActions DEV v = Normal (dataState_of v, actions_of v).
Proof.
  unfold separateStateAndActions, plain_object.
  intros [->|Hv]; [done|].
  destruct v as [| | | | | | |[] m]; try discriminate; by destruct DEV.
Qed.

(** C9.  Whenever the initializer returns a value that the development
    checks let through (they are off, or the value is a non-null object
    that is not an array), [create] makes exactly one [new Travels(..)],
    whatever the options: its first argument is the data half of the
    initializer's result and its second is the caller's options with
    [mutable] set to [false], the other keys as the caller gave them.
    If that constructor returns an engine, [create] returns and the
    engine variable holds that engine; if it throws, [create] throws the
    same value.  No later dispatch or navigation constructs an engine. *)
Theorem engine_constructed_once_immutable i options (c1 : Closure) v :
  run_initializer i fresh = (c1, Normal v) →
  DEV = false ∨ plain_object v = true →
  let r := create i options in
  let data := VObj false (filter (λ kv, is_function kv.2 = false)
                                 (own_props v)) in
  constructions (log r.1) = [(data, forced_options options)]
  ∧ own_props (forced_options options) !! "mutable"%string
    = Some (VBool false)
  ∧ (∀ k, k ≠ "mutable"%string →
       own_props (forced_options options) !! k = own_props options !! k)
  ∧ (∀ e, travels_new data (forced_options options) = Normal e →
          r.2 = Normal v ∧ travels r.1 = Some e)
  ∧ (∀ err, travels_new data (forced_options options) = Throw err →
            r.2 = Throw err ∧ travels r.1 = None)
  ∧ (∀ ops, constructions (log (run_ops ops r.1))
            = constructions (log r.1)).
Proof.
  intros Hrun Hok r data.
  destruct (accepted_separates v Hok) as [Hnull Hsep].
  pose proof (run_initializer_spec i fresh eq_refl) as Hspec.
  cbn zeta in Hspec. rewrite Hrun in Hspec. cbn [fst] in Hspec.
  destruct Hspec as (_ & _ & Ht & _ & _ & l & Hl & Hn). simpl in Hl, Ht.
  pose proof (native_only_constructions l Hn) as Hnil.
  assert (Hr : r = match travels_new data (forced_options options) with
                   | Normal e =>
                       (with_store v
                          (wired c1 (dataState_of v) (actions_of v)
                                 options e), Normal v)
                   | Throw err =>
                       rethrow
                         "[zustand-travel] Middleware initialization failed:"
                         (record (EvNew data (forced_options options))
                                 (with_actions (actions_of v) c1), Throw err)
                   end).
  { subst r. unfold create, travel. rewrite travelImpl_unfold, Hrun, Hnull, Hsep.
    cbn [fst snd]. change (VObj false (dataState_of v)) with data.
    destruct (travels_new data (forced_options options)) as [e|err]; [done|].
    unfold rethrow. by destruct DEV. }
  assert (Hone : constructions (log r.1) = [(data, forced_options options)]).
  { rewrite Hr. destruct (travels_new data (forced_options options)).
    - simpl. by rewrite constructions_app, Hl, Hnil.
    - rewrite rethrow_constructions. simpl.
      by rewrite constructions_app, Hl, Hnil. }
  split_and!.
  - exact Hone.
  - simpl. apply lookup_insert_eq.
  - intros k Hk. simpl. by apply lookup_insert_ne.
  - intros e He. rewrite Hr, He. done.
  - intros err He. rewrite Hr, He. unfold rethrow.
    destruct DEV; simpl; by rewrite Ht.
  - intros ops.
    by destruct (run_ops_same_wiring ops r.1) as (_&_&_&_&Hc&_).
Qed.

(** *** The partition of the initial state *)





(** X2.  [separateStateAndActions] returns exactly when the development
    checks are off or its argument is a non-null object that is not an
    array; otherwise it throws the array error for an array and the
    not-an-object error, carrying [typeof obj], for anything else. *)
Theorem validation_accepts_exactly_objects obj :
  ((DEV = false ∨ plain_object obj = true) ↔
   separateStateAndActions DEV obj
   = Normal (filter (λ kv, is_function kv.2 = false) (own_props obj),
             filter (λ kv, is_function kv.2 = true) (own_props obj)))
  ∧ (DEV = true → plain_object obj = false →
     separateStateAndActions DEV obj
     = Throw (if isArray obj then err_array else err_not_object obj)).
Proof.
  unfold separateStateAndActions, plain_object. destruct DEV; cbn [andb].
  - destruct obj as [| |b|z|s|f|n msg|[] m]; simpl; rewrite ?orb_true_r;
      (split; [split; [intros [?|?]; done | try done]| try done]).
    all: try (by right).
  - split; [split; [done | by left] | done].
Qed.


(** *** What a live store logs *)

Lemma continues_refl P (c : Closure) : continues P c c.
Proof. split; [done|]. exists []. by rewrite app_nil_r. Qed.

Lemma continues_trans P (c1 c2 c3 : Closure) :
  continues P c1 c2 → continues P c2 c3 → continues P c1 c3.
Proof.
  intros [Ha (l & Hl & HP)] [Ha' (l' & Hl' & HP')]. split; [congruence|].
  exists (l ++ l'). split.
  - by rewrite Hl', Hl, app_assoc.
  - by apply Forall_app.
Qed.

Lemma continues_weaken (P Q : Event → Prop) (c c' : Closure) :
  (∀ ev, P ev → Q ev) → continues P c c' → continues Q c c'.
Proof.
  intros HPQ [Ha (l & Hl & HP)]. split; [done|]. exists l. split; [done|].
  eapply Forall_impl; eauto.
Qed.

Lemma on_change_continues snapshot (c : Closure) :
  continues (republication (actions c)) c (on_change snapshot c).1.
Proof.
  unfold on_change, set.
  destruct (native_set _ _ _); (split; [done|]); simpl;
    eexists [_]; (split; [done|]); constructor; try constructor;
    by exists snapshot.
Qed.

Lemma for_each_on_change_continues snapshots (c : Closure) :
  continues (republication (actions c)) c (for_each on_change snapshots c).1.
Proof.
  revert c. induction snapshots as [|s l IH]; intros c.
  - apply continues_refl.
  - cbn [for_each]. unfold mbind, M_bind, bind.
    pose proof (on_change_continues s c) as H1.
    destruct (on_change s c) as [c1 [[]|error]]; [|exact H1].
    cbn [fst] in H1. eapply continues_trans; [exact H1|].
    destruct H1 as [<- _]. apply IH.
Qed.

Lemma notify_continues snapshots (c : Closure) :
  continues (republication (actions c)) c (notify snapshots c).1.
Proof.
  unfold notify. destruct (subscribed c); [|apply continues_refl].
  apply for_each_on_change_continues.
Qed.

(** The log of one engine call: the call, then the subscription's host
    calls for the snapshots the engine emitted. *)
Lemma travels_call_log ev method (c : Closure) e :
  travels c = Some e →
  actions (travels_call ev method c).1 = actions c
  ∧ ∃ l, log (travels_call ev method c).1 = log c ++ ev :: l
         ∧ Forall (republication (actions c)) l.
Proof.
  intros He. unfold travels_call. rewrite He.
  set (c1 := with_travels _ _). unfold mbind, M_bind, bind.
  pose proof (notify_continues (emitted (method e)) c1) as Hn.
  destruct (notify (emitted (method e)) c1) as [c2 [[]|error]];
    cbn [fst] in Hn; destruct Hn as [Ha (l & Hl & HP)];
    [destruct (raised (method e))|]; unfold throw, ret; cbn [fst];
    (split; [exact Ha|]); exists l; (split; [|exact HP]);
    rewrite Hl; simpl; by rewrite <- app_assoc.
Qed.

Lemma republication_commits a l :
  Forall (republication a) l → commits l = [].
Proof. induction 1 as [|ev l [s ->] _ IH]; [done|]. exact IH. Qed.

Lemma rethrow_log {A} message (c : Closure) (x : Completion A) :
  log (rethrow message (c, x)).1
  = log c ++ match x with
             | Throw error =>
                 if DEV then [EvConsoleError message error] else []
             | Normal _ => []
             end.
Proof.
  destruct x as [a|error]; simpl; [by rewrite app_nil_r|].
  destruct DEV; simpl; by rewrite ?app_nil_r.
Qed.

Lemma rethrow_actions {A} message (r : Closure * Completion A) :
  actions (rethrow message r).1 = actions r.1.
Proof. destruct r as [c [a|error]]; [done|]. simpl. by destruct DEV. Qed.

Lemma travels_call_active ev method (c : Closure) :
  active_event (actions c) ev →
  continues (active_event (actions c)) c (travels_call ev method c).1.
Proof.
  intros Hev. destruct (travels c) as [e|] eqn:He.
  - destruct (travels_call_log ev method c e He) as [Ha (l & Hl & HP)].
    split; [done|]. exists (ev :: l). split; [done|].
    constructor; [done|]. eapply Forall_impl; [exact HP|].
    by intros ev' [s ->]; exists s.
  - unfold travels_call. rewrite He. apply continues_refl.
Qed.

Lemma run_op_active op (c : Closure) :
  isInitializing c = false →
  continues (active_event (actions c)) c (run_op op c).1.
Proof.
  intros Hc. destruct op as [updater replace|ctl]; simpl.
  - rewrite travelSet_active by done.
    destruct (DEV && nullish updater); [apply continues_refl|].
    pose proof (travels_call_active (EvSetState (routed updater replace))
                  (travels_setState (routed updater replace)) c I) as Hs.
    unfold setState.
    destruct (travels_call _ _ c) as [c' x]. cbn [fst] in Hs.
    destruct Hs as [Ha (l & Hl & HP)]. split.
    + by rewrite rethrow_actions.
    + rewrite rethrow_log, Hl, <- app_assoc. eexists. split; [done|].
      apply Forall_app. split; [done|].
      destruct x as [|error]; [constructor|].
      destruct DEV eqn:Hdev; constructor; [exact Hdev|constructor].
  - by apply travels_call_active.
Qed.



Lemma same_state_refl (c : Closure) : same_state c c.
Proof. by repeat split. Qed.





(** X7.  Once the store is Active, whatever sequence of dispatches and
    navigations is run, the log only grows by calls of the engine's
    [setState] and controls, by host calls of the form
    [set({ ...snapshot, ...actions }, true)], and, under the development
    checks only, by [console.error]: the host's setter is never called
    with a caller's updater, no engine is constructed, nothing is
    subscribed again, and the actions are the same. *)
Theorem live_store_only_republishes ops (c : Closure) :
  isInitializing c = false →
  actions (run_ops ops c) = actions c
  ∧ ∃ l, log (run_ops ops c) = log c ++ l
         ∧ Forall (active_event (actions c)) l.
Proof.
  revert c. induction ops as [|op ops IH]; intros c Hc.
  - apply continues_refl.
  - cbn [run_ops foldl].
    destruct (run_op_same_wiring op c) as (Hi & _).
    pose proof (run_op_active op c Hc) as H1.
    eapply (continues_trans _ c _ _ H1).
    destruct H1 as [<- _]. apply IH. congruence.
Qed.

Lemma travelSet_log_active (c : Closure) e updater replace :
  isInitializing c = false →
  travels c = Some e →
  DEV && nullish updater = false →
  ∃ l tail,
    log (travelSet updater replace c).1
    = log c ++ EvSetState (routed updater replace) :: l ++ tail
    ∧ Forall (republication (actions c)) l
    ∧ commits tail = [].
Proof.
  intros Hc He Hnull. rewrite travelSet_active by done. rewrite Hnull.
  unfold setState.
  destruct (travels_call_log (EvSetState (routed updater replace))
              (travels_setState (routed updater replace)) c e He)
    as [_ (l & Hl & HP)].
  destruct (travels_call _ _ c) as [c' x]. cbn [fst] in Hl.
  rewrite rethrow_log, Hl, <- app_assoc. eexists l, _.
  split; [reflexivity|]. split; [exact HP|].
  destruct x; [done|by destruct DEV].
Qed.

(** X8.  In the Active phase with the engine in place, a dispatch that
    passes the null check makes exactly one [travels.setState] call:
    with the function itself when the updater is a function, with the
    value itself when [replace] is truthy, and with the procedure
    [(draft) => { Object.assign(draft, updater) }] otherwise.  A dispatch
    stopped by the null check makes none. *)
Theorem one_commit_per_dispatch (c : Closure) e updater replace :
  isInitializing c = false →
  travels c = Some e →
  commits (log (travelSet updater replace c).1)
  = commits (log c) ++
    (if DEV && nullish updater then []
     else match updater with
          | VFun f => [UFun (fn_body f)]
          | _ => if truthy replace then [UValue updater]
                 else [UFun (assign_body updater)]
          end).
Proof.
  intros Hc He. destruct (DEV && nullish updater) eqn:Hnull.
  - rewrite travelSet_active by done. by rewrite Hnull, app_nil_r.
  - destruct (travelSet_log_active c e updater replace Hc He Hnull)
      as (l & tail & -> & HP & Htail).
    rewrite commits_app. cbn [commits].
    rewrite commits_app, (republication_commits _ _ HP), Htail.
    f_equal. unfold routed.
    destruct updater; try done; by destruct (truthy replace).
Qed.


(** *** Outcomes of initialization *)

Lemma native_only_kinds l ev :
  native_only l → ev ∈ l → ∃ partial replace, ev = EvNativeSet partial replace.
Proof. intros Hl Hin. by eapply Forall_forall in Hl. Qed.

(** X4.  When the state creator returns, it returns the very value the
    initializer returned, functions included; no [travels.setState] has
    been made, however many times the initializer dispatched; the engine
    variable holds the engine exactly as [new Travels] built it from the
    data half and the forced options; and the store is Active,
    subscribed and has [getControls]. *)
Theorem successful_initialization i options v :
  (travelImpl i options fresh).2 = Normal v →
  (∃ c1, run_initializer i fresh = (c1, Normal v))
  ∧ commits (log (travelImpl i options fresh).1) = []
  ∧ (∃ e, travels_new
            (VObj false (filter (λ kv, is_function kv.2 = false)
                                (own_props v)))
            (forced_options options) = Normal e
          ∧ travels (travelImpl i options fresh).1 = Some e)
  ∧ actions (travelImpl i options fresh).1
    = filter (λ kv, is_function kv.2 = true) (own_props v)
  ∧ isInitializing (travelImpl i options fresh).1 = false
  ∧ subscribed (travelImpl i options fresh).1 = true
  ∧ getControls (travelImpl i options fresh).1 = true.
Proof.
  intros Hok.
  destruct (travelImpl_cases i options)
    as (c1 & l & Hn & Hl & _ & _ & _ & Hcases).
  cbn zeta in Hcases.
  destruct Hcases as [(v' & e & Hrun & _ & _ & Hnew & Heq)
                     |[(v' & err & _ & _ & _ & Heq)|(err & Heq & _)]];
    rewrite Heq in Hok |- *.
  - injection Hok as ->. split_and!; try done.
    + by exists c1.
    + simpl. rewrite commits_app, Hl, (native_only_commits l Hn). done.
    + by exists e.
  - unfold rethrow in Hok. by destruct DEV.
  - unfold rethrow in Hok. by destruct DEV.
Qed.

(** X5.  When the state creator throws, nothing has been wired: the
    store is still Initializing, has no engine, no subscription and no
    [getControls]; no [travels.setState] was made; and all that was
    logged are host calls of the initializer, at most the one failed
    [new Travels] and the [console.error]. *)
Theorem failed_initialization_wires_nothing i options err :
  (travelImpl i options fresh).2 = Throw err →
  isInitializing (travelImpl i options fresh).1 = true
  ∧ travels (travelImpl i options fresh).1 = None
  ∧ subscribed (travelImpl i options fresh).1 = false
  ∧ getControls (travelImpl i options fresh).1 = false
  ∧ commits (log (travelImpl i options fresh).1) = []
  ∧ ∀ ev, ev ∈ log (travelImpl i options fresh).1 →
      (∃ partial replace, ev = EvNativeSet partial replace)
      ∨ (∃ d, ev = EvNew d (forced_options options))
      ∨ (∃ message, ev = EvConsoleError message err ∧ DEV = true).
Proof.
  intros Hfail.
  pose proof (run_initializer_spec i fresh eq_refl) as Hspec.
  cbn zeta in Hspec. destruct Hspec as (_ & _ & _ & _ & Hgc & _).
  destruct (travelImpl_cases i options)
    as (c1 & l & Hn & Hl & Hi & Ht & Hs & Hcases).
  cbn zeta in Hcases.
  assert (Hg : getControls c1 = false).
  { destruct Hcases as [(v & e & Hrun & _)
                       |[(v & err' & Hrun & _)
                        |(err' & _ & [Hrun|(v & Hrun & _)])]];
      by rewrite Hrun in Hgc. }
  assert (Hconsole : ∀ (c : Closure) e',
            rethrow "[zustand-travel] Middleware initialization failed:"
                    (c, Throw e') = (travelImpl i options fresh) →
            e' = err
            ∧ log (travelImpl i options fresh).1
              = log c ++ (if DEV
                          then [EvConsoleError
                                  "[zustand-travel] Middleware initialization failed:"
                                  err]
                          else [])
            ∧ isInitializing (travelImpl i options fresh).1 = isInitializing c
            ∧ travels (travelImpl i options fresh).1 = travels c
            ∧ subscribed (travelImpl i options fresh).1 = subscribed c
            ∧ getControls (travelImpl i options fresh).1 = getControls c).
  { intros c e' Heq. rewrite <- Heq in Hfail |- *.
    assert (e' = err) as ->
      by (unfold rethrow in Hfail; by destruct DEV; injection Hfail).
    rewrite rethrow_log. unfold rethrow. by destruct DEV. }
  destruct Hcases as [(v & e & _ & _ & _ & _ & Heq)
                     |[(v & err' & _ & _ & _ & Heq)|(err' & Heq & _)]].
  - rewrite Heq in Hfail. discriminate.
  - destruct (Hconsole _ _ (eq_sym Heq)) as (-> & Hlog & -> & -> & -> & ->).
    split_and!; try done.
    + rewrite Hlog. simpl. rewrite !commits_app, Hl, (native_only_commits l Hn).
      simpl. by destruct DEV.
    + intros ev. rewrite Hlog. simpl. rewrite Hl.
      rewrite !elem_of_app, list_elem_of_singleton.
      intros [[Hin| ->]|Hin].
      * left. by eapply native_only_kinds.
      * right. left. by eexists.
      * right. right. destruct DEV; [|by apply elem_of_nil in Hin].
        apply list_elem_of_singleton in Hin as ->. by eexists.
  - destruct (Hconsole _ _ (eq_sym Heq)) as (-> & Hlog & -> & -> & -> & ->).
    split_and!; try done.
    + rewrite Hlog, commits_app, Hl, (native_only_commits l Hn).
      by destruct DEV.
    + intros ev. rewrite Hlog, Hl, elem_of_app.
      intros [Hin|Hin].
      * left. by eapply native_only_kinds.
      * right. right. destruct DEV; [|by apply elem_of_nil in Hin].
        apply list_elem_of_singleton in Hin as ->. by eexists.
Qed.

(** X6.  What the initializer throws, and what [new Travels] throws, is
    what the state creator throws, the same value; under the development
    checks it is passed to [console.error] once, after everything else
    that was logged, and without them nothing is logged for it. *)
Theorem initialization_errors_rethrown i options :
  (∀ (c1 : Closure) err,
     run_initializer i fresh = (c1, Throw err) →
     (travelImpl i options fresh).2 = Throw err
     ∧ log (travelImpl i options fresh).1
       = log c1 ++
         (if DEV
          then [EvConsoleError
                  "[zustand-travel] Middleware initialization failed:" err]
          else []))
  ∧ (∀ (c1 : Closure) v st ac err,
       run_initializer i fresh = (c1, Normal v) →
       DEV && nullish v = false →
       separateStateAndActions DEV v = Normal (st, ac) →
       travels_new (VObj false st) (forced_options options) = Throw err →
       (travelImpl i options fresh).2 = Throw err
       ∧ log (travelImpl i options fresh).1
         = log c1 ++
           EvNew (VObj false st) (forced_options options)
           :: (if DEV
               then [EvConsoleError
                       "[zustand-travel] Middleware initialization failed:"
                       err]
               else [])).
Proof.
  split.
  - intros c1 err Hrun. rewrite travelImpl_unfold, Hrun.
    rewrite rethrow_log. unfold rethrow. by destruct DEV.
  - intros c1 v st ac err Hrun Hnull Hsep Hnew.
    rewrite travelImpl_unfold, Hrun, Hnull, Hsep. cbn [fst snd].
    rewrite Hnew, rethrow_log. unfold rethrow. simpl.
    destruct DEV; simpl; by rewrite <- ?app_assoc.
Qed.

(** X13.  Whatever the initializer and the options, and whether
    [create] returns or throws, the log holds at most one
    [new Travels(..)]: any that is there has the caller's options with
    [mutable] set to [false] (the other keys as the caller gave them),
    and when [create] returns there is exactly one, on the data half of
    the returned value.  No later dispatch or navigation adds one. *)
Theorem engine_constructed_at_most_once i options :
  let r := create i options in
  (∀ v, r.2 = Normal v →
     constructions (log r.1) =
       [(VObj false (filter (λ kv, is_function kv.2 = false) (own_props v)),
         forced_options options)])
  ∧ (∀ d o, (d, o) ∈ constructions (log r.1) →
       constructions (log r.1) = [(d, o)] ∧ o = forced_options options)
  ∧ own_props (forced_options options) !! "mutable"%string
    = Some (VBool false)
  ∧ (∀ k, k ≠ "mutable"%string →
       own_props (forced_options options) !! k = own_props options !! k)
  ∧ (∀ ops, constructions (log (run_ops ops r.1))
            = constructions (log r.1)).
Proof.
  intros r.
  destruct (create_travelImpl i options) as (H2 & Hlog & _).
  fold r in H2, Hlog. rewrite H2, Hlog.
  assert (Hcons :
    (constructions (log (travelImpl i options fresh).1) = []
     ∧ ∃ err, (travelImpl i options fresh).2 = Throw err)
    ∨ ∃ v, constructions (log (travelImpl i options fresh).1)
           = [(VObj false (dataState_of v), forced_options options)]
           ∧ ∀ v', (travelImpl i options fresh).2 = Normal v' → v' = v).
  { destruct (travelImpl_cases i options)
      as (c1 & l & Hn & Hl & _ & _ & _ & Hcases).
    cbn zeta in Hcases.
    pose proof (native_only_constructions l Hn) as Hnil.
    destruct Hcases as [(v & e & _ & _ & _ & _ & ->)
                       |[(v & err & _ & _ & _ & ->)|(err & -> & _)]].
    - right. exists v. simpl. rewrite constructions_app, Hl, Hnil.
      split; [done|]. by intros v' [= ->].
    - right. exists v. rewrite rethrow_constructions. simpl.
      rewrite constructions_app, Hl, Hnil. split; [done|].
      unfold rethrow. by destruct DEV.
    - left. rewrite rethrow_constructions, Hl. split; [done|].
      exists err. unfold rethrow. by destruct DEV. }
  split_and!.
  - intros v Hv. destruct Hcons as [[_ [err Herr]]|(v' & -> & Hsame)].
    + congruence.
    + by rewrite (Hsame v Hv).
  - intros d o Hin. destruct Hcons as [[Hnil _]|(v' & Heq & _)].
    + rewrite Hnil in Hin. by apply elem_of_nil in Hin.
    + rewrite Heq in Hin |- *. apply list_elem_of_singleton in Hin.
      by injection Hin as -> ->.
  - simpl. apply lookup_insert_eq.
  - intros k Hk. simpl. by apply lookup_insert_ne.
  - intros ops.
    destruct (run_ops_same_wiring ops r.1) as (_&_&_&_&Hc&_).
    by rewrite Hc, Hlog.
Qed.

End Properties.

(** The reference host replaces, and the reference engine is
    transactional. *)
#[export] Instance zustand_replaces fn_body :
  @HostReplaces (zustand fn_body).
Proof.
  constructor. intros v state Hv. simpl. unfold zustand_setState.
  destruct (same_value v state) eqn:Hs.
  - apply same_value_eq in Hs. subst state.
    destruct v; try discriminate; simpl; by repeat case_match.
  - destruct v; try discriminate; simpl in *; by rewrite ?Hs.
Qed.

#[export] Instance history_transactional : EngineTransactional History.
Proof.
  constructor. intros body e err Hbody. simpl in *.
  unfold history_setState. by rewrite Hbody.
Qed.

#[export] Instance history_runs_on_draft : EngineRunsOnDraft History.
Proof.
  constructor. intros body body' e Hbody. simpl in *.
  unfold history_setState. by rewrite Hbody.
Qed.

(** ** The earlier revision agrees with the middleware without the
    development checks *)

Section EarlierAgrees.
Context {E : Type} `{!Engine E} `{!Host} `{!ObjectAssign}.
Variable fn_body : nat → Value → Outcome.

Lemma earlier_travelSet_agrees updater replace (c : Closure E) :
  Earlier.travelSet fn_body updater replace c
  = travelSet false fn_body updater replace c.
Proof.
  unfold Earlier.travelSet, travelSet.
  destruct (isInitializing c).
  - by destruct replace as [| |[]| | | | |].
  - cbn [andb]. unfold try_catch.
    destruct updater; try destruct (truthy replace);
      match goal with
      | |- ?m c = _ => destruct (m c) as [c' [[]|error]]; reflexivity
      end.
Qed.

Lemma earlier_run_initializer_agrees i (c : Closure E) :
  Earlier.run_initializer fn_body i c = run_initializer false fn_body i c.
Proof.
  revert c. induction i as [v|error|updater replace rest IH|rest IH];
    intros c; cbn [Earlier.run_initializer run_initializer]; try done.
  unfold mbind, Earlier.M_bind, M_bind, bind.
  rewrite earlier_travelSet_agrees.
  destruct (travelSet false fn_body updater replace c) as [c' [[]|error]];
    [apply IH | done].
Qed.

Lemma earlier_travelImpl_agrees i options (c : Closure E) :
  Earlier.travelImpl fn_body i options c
  = travelImpl false fn_body i options c.
Proof.
  rewrite travelImpl_unfold. unfold Earlier.travelImpl.
  unfold mbind, Earlier.M_bind, bind.
  rewrite earlier_run_initializer_agrees.
  destruct (run_initializer false fn_body i c) as [c1 [v|error]]; [|done].
  unfold separateStateAndActions, Earlier.separateStateAndActions.
  cbn [andb fst snd]. unfold assign_actions, new_Travels.
  destruct (travels_new _ _) as [e|error]; [|done].
  unfold wired. simpl. unfold record. simpl. by rewrite <- !app_assoc.
Qed.

(** X11.  The earlier revision of the file is the middleware with the
    development checks off: its dispatcher, run on any updater, replace
    flag and closure, and its state creator, run on any initializer,
    options and closure, give the same closure and the same completion. *)
Theorem earlier_revision_agrees :
  (∀ updater replace (c : Closure E),
     Earlier.travelSet fn_body updater replace c
     = travelSet false fn_body updater replace c)
  ∧ (∀ obj,
       Normal (Earlier.separateStateAndActions obj)
       = separateStateAndActions false obj)
  ∧ (∀ i options (c : Closure E),
       Earlier.travelImpl fn_body i options c
       = travelImpl false fn_body i options c).
Proof.
  split_and!.
  - apply earlier_travelSet_agrees.
  - done.
  - apply earlier_travelImpl_agrees.
Qed.

End EarlierAgrees.

(** ** The two builds

    What the development checks change, and what they leave alone. *)

Section Builds.
Context {E : Type} `{!Engine E} `{!Host} `{!ObjectAssign}.
Variable fn_body : nat → Value → Outcome.

Lemma set_keeps_initializing partial replace (c : Closure E) :
  isInitializing (set partial replace c).1 = isInitializing c.
Proof. unfold set. by destruct (native_set _ _ _). Qed.

Lemma run_initializer_either_build i (c : Closure E) :
  isInitializing c = true →
  run_initializer true fn_body i c = run_initializer false fn_body i c.
Proof.
  revert c. induction i as [v|error|updater replace rest IH|rest IH];
    intros c Hc; cbn [run_initializer]; try done.
  - unfold mbind, M_bind, bind.
    rewrite !travelSet_initializing by done.
    pose proof (set_keeps_initializing updater replace c) as Hk.
    destruct (set updater replace c) as [c' [[]|error]]; [|done].
    apply IH. cbn [fst] in Hk. congruence.
  - by apply IH.
Qed.

Lemma separate_plain dev v :
  plain_object v = true →
  separateStateAndActions dev v
  = Normal (filter (λ kv, is_function kv.2 = false) (own_props v),
            filter (λ kv, is_function kv.2 = true) (own_props v)).
Proof.
  unfold plain_object, separateStateAndActions.
  destruct v as [| | | | | | |[] m]; try discriminate; intros _;
    by destruct dev.
Qed.

(** X9.  A dispatch made while the store is initializing, or with an
    updater that is neither null nor undefined, goes the same way with
    the development checks on and off: the same completion, the same
    store state, engine state and actions; and when it completes
    normally the two closures are equal, log included (the checks only
    add [console.error] to a failing call). *)
Theorem dispatch_same_in_both_builds (c : Closure E) updater replace :
  isInitializing c = true ∨ nullish updater = false →
  (travelSet true fn_body updater replace c).2
  = (travelSet false fn_body updater replace c).2
  ∧ store (travelSet true fn_body updater replace c).1
    = store (travelSet false fn_body updater replace c).1
  ∧ travels (travelSet true fn_body updater replace c).1
    = travels (travelSet false fn_body updater replace c).1
  ∧ actions (travelSet true fn_body updater replace c).1
    = actions (travelSet false fn_body updater replace c).1
  ∧ ((travelSet false fn_body updater replace c).2 = Normal tt →
     travelSet true fn_body updater replace c
     = travelSet false fn_body updater replace c).
Proof.
  intros Hcase. destruct (isInitializing c) eqn:Hc.
  - by rewrite !travelSet_initializing.
  - destruct Hcase as [?|Hu]; [done|].
    rewrite !travelSet_active by done. rewrite Hu. cbn [andb].
    unfold rethrow.
    by destruct (setState (routed fn_body updater replace) c)
      as [c' [[]|error]].
Qed.

(** X10.  When the initializer returns a non-null, non-array object,
    the state creator goes the same way with the development checks on
    and off: the same completion and the same closure variables, and
    when it returns the two closures are equal, log included. *)
Theorem initialization_same_in_both_builds i options (c1 : Closure E) v :
  run_initializer false fn_body i fresh = (c1, Normal v) →
  plain_object v = true →
  (travelImpl true fn_body i options fresh).2
  = (travelImpl false fn_body i options fresh).2
  ∧ isInitializing (travelImpl true fn_body i options fresh).1
    = isInitializing (travelImpl false fn_body i options fresh).1
  ∧ actions (travelImpl true fn_body i options fresh).1
    = actions (travelImpl false fn_body i options fresh).1
  ∧ travels (travelImpl true fn_body i options fresh).1
    = travels (travelImpl false fn_body i options fresh).1
  ∧ subscribed (travelImpl true fn_body i options fresh).1
    = subscribed (travelImpl false fn_body i options fresh).1
  ∧ store (travelImpl true fn_body i options fresh).1
    = store (travelImpl false fn_body i options fresh).1
  ∧ (∀ v', (travelImpl false fn_body i options fresh).2 = Normal v' →
       travelImpl true fn_body i options fresh
       = travelImpl false fn_body i options fresh).
Proof.
  intros Hrun Hv. rewrite !travelImpl_unfold.
  rewrite run_initializer_either_build by done. rewrite Hrun.
  assert (Hnull : nullish v = false)
    by (destruct v as [| | | | | | |[] m]; done).
  rewrite Hnull, !(separate_plain _ v Hv). cbn [andb fst snd].
  unfold rethrow.
  by destruct (travels_new _ _) as [e|error].
Qed.

End Builds.

(** ** The properties on the counter store *)

Lemma counter_store_created dev :
  create dev counter_fns counter VUndefined
  = (counter_store dev, Normal (counter_state 0)).
Proof. destruct dev; vm_compute; reflexivity. Qed.

Lemma counter_store_wired dev :
  isInitializing (counter_store dev) = false
  ∧ subscribed (counter_store dev) = true
  ∧ travels (counter_store dev) = Some counter_engine.
Proof. destruct dev; vm_compute; done. Qed.

(** One [increment()] on the counter store: the republished state has
    the action [increment] and the new count. *)
Lemma snapshots_republished_witness :
  travels (counter_store true) = Some counter_engine
  ∧ subscribed (counter_store true) = true
  ∧ store (travels_call (EvSetState (UFun (counter_fns 1)))
             (travels_setState (UFun (counter_fns 1)))
             (counter_store true)).1
    = VObj false (<["count" := VNum 1]> {["increment" := VFun 0]}).
Proof.
  destruct (counter_store_wired true) as (_ & Hs & He).
  split; [exact He|]. split; [exact Hs|].
  destruct (@snapshots_republished_by_replacement History counter_host _
              (EvSetState (UFun (counter_fns 1)))
              (travels_setState (UFun (counter_fns 1)))
              (counter_store true) counter_engine He Hs)
    as (_ & _ & Hlast).
  destruct (Hlast (counter_data 1) eq_refl) as (-> & _).
  vm_compute. reflexivity.
Defined.

(** Two increments and one step back: [increment] read from the store
    is still the function the initializer returned. *)
Lemma behavior_set_fixed_witness :
  create true counter_fns counter VUndefined
  = (counter_store true, Normal (counter_state 0))
  ∧ own_props
      (store (run_ops true counter_fns
                [increment; increment; Navigate (Back 1)]
                (counter_store true))) !! "increment"
    = Some (VFun 0).
Proof.
  split; [apply counter_store_created|].
  destruct (@behavior_set_fixed History _ counter_host _ true counter_fns _
              counter VUndefined (counter_store true) (counter_state 0)
              [increment; increment; Navigate (Back 1)]
              (counter_store_created true))
    as (_ & _ & Hread).
  apply (Hread "increment" (VFun 0)). vm_compute. reflexivity.
Defined.


(** The counter store created with [{ maxHistory: 3, mutable: true }]:
    one engine is constructed, on [{ count: 0 }] and with [mutable]
    false, and it is the engine the store then holds. *)
Lemma engine_constructed_witness :
  run_initializer true counter_fns counter (fresh : Closure History)
  = (fresh, Normal (counter_state 0))
  ∧ (true = false ∨ plain_object (counter_state 0) = true)
  ∧ constructions
      (log (create (E:=History) true counter_fns counter caller_options).1)
    = [(counter_data 0,
        VObj false (<["mutable" := VBool false]>
                      {["maxHistory" := VNum 3]}))]
  ∧ (create (E:=History) true counter_fns counter caller_options).2
    = Normal (counter_state 0)
  ∧ travels (create (E:=History) true counter_fns counter caller_options).1
    = Some counter_engine.
Proof.
  split; [reflexivity|]. split; [by right|].
  destruct (@engine_constructed_once_immutable History _ counter_host _ true
              counter_fns counter caller_options fresh (counter_state 0)
              eq_refl (or_intror eq_refl))
    as (Hone & _ & _ & Hnew & _).
  split; [rewrite Hone; vm_compute; reflexivity|].
  apply Hnew. vm_compute. reflexivity.
Defined.

(** [set({ count: 5 })] from inside the initializer. *)
Lemma initializing_dispatch_witness :
  isInitializing (fresh : Closure History) = true
  ∧ travels (travelSet true counter_fns (counter_data 5) VUndefined
               (fresh : Closure History)).1 = None
  ∧ log (travelSet true counter_fns (counter_data 5) VUndefined
           (fresh : Closure History)).1
    = [EvNativeSet (counter_data 5) VUndefined].
Proof.
  split; [reflexivity|].
  destruct (@initializing_dispatch_bypasses_engine History _ counter_host _ true
              counter_fns fresh (counter_data 5) VUndefined eq_refl)
    as (_ & Hlog & Ht & _).
  split; [exact Ht | exact Hlog].
Defined.

(** An initializer returning [[1]], under the development checks. *)
Lemma invalid_initial_state_witness :
  true = true
  ∧ run_initializer true counter_fns returns_array (fresh : Closure History)
    = (fresh, Normal (array_of [VNum 1]))
  ∧ plain_object (array_of [VNum 1]) = false
  ∧ ∃ err, (create (E:=History) true counter_fns returns_array VUndefined).2
           = Throw err
           ∧ InvalidInitialState err
           ∧ constructions
               (log (create (E:=History) true counter_fns returns_array
                       VUndefined).1) = [].
Proof.
  do 3 (split; [reflexivity|]).
  destruct (@invalid_initial_state_rejected History _ counter_host _ true
              counter_fns returns_array VUndefined fresh
              (array_of [VNum 1]) eq_refl eq_refl eq_refl)
    as (err & H2 & Herr & Hc & _).
  exists err. by split_and!.
Defined.

(** [set(null)] on the live counter store, under the development checks. *)
Lemma null_updater_rejected_witness :
  true = true
  ∧ isInitializing (counter_store true) = false
  ∧ nullish VNull = true
  ∧ travelSet true counter_fns VNull VUndefined (counter_store true)
    = (counter_store true, Throw err_null_updater).
Proof.
  destruct (counter_store_wired true) as (Hi & _).
  split; [reflexivity|]. split; [exact Hi|]. split; [reflexivity|].
  exact (proj1 (@null_updater_rejected_when_active History _ counter_host _
                  true counter_fns (counter_store true) VNull VUndefined
                  eq_refl Hi eq_refl)).
Defined.

(** The throwing updater (function 2) on the live counter store. *)
Lemma updater_exception_witness :
  isInitializing (counter_store true) = false
  ∧ travels (counter_store true) = Some counter_engine
  ∧ counter_fns 2 (travels_getState counter_engine) = Raised boom
  ∧ (travelSet true counter_fns (VFun 2) VUndefined (counter_store true)).2
    = Throw boom
  ∧ store (travelSet true counter_fns (VFun 2) VUndefined
             (counter_store true)).1
    = store (counter_store true).
Proof.
  destruct (counter_store_wired true) as (Hi & _ & He).
  split; [exact Hi|]. split; [exact He|]. split; [reflexivity|]. split.
  - exact (proj1 (@updater_exception_propagates History _ counter_host _ true
                    counter_fns _ (counter_store true) counter_engine 2
                    VUndefined boom Hi He eq_refl)).
  - exact (proj1 (proj2 (@updater_exception_propagates History _ counter_host _
                    true counter_fns _ (counter_store true) counter_engine 2
                    VUndefined boom Hi He eq_refl))).
Defined.

(** [set(null)] from inside the initializer. *)
Lemma null_updater_forwarded_witness :
  isInitializing (fresh : Closure History) = true
  ∧ nullish VNull = true
  ∧ travelSet true counter_fns VNull VUndefined (fresh : Closure History)
    = set VNull VUndefined fresh
  ∧ (travelSet true counter_fns VNull VUndefined
       (fresh : Closure History)).2 = Normal tt.
Proof.
  do 2 (split; [reflexivity|]). split.
  - exact (proj1 (@null_updater_forwarded_when_initializing History _
                    counter_host _ true counter_fns fresh VNull VUndefined
                    eq_refl eq_refl)).
  - exact (proj2 (proj2 (@null_updater_forwarded_when_initializing History _
                    counter_host _ true counter_fns fresh VNull VUndefined
                    eq_refl eq_refl))).
Defined.

(** Two increments, then two steps back: the count goes 2, 1, 0. *)
Example counter_undo :
  map (λ ops, own_props (store (run_ops true counter_fns ops
                                  (counter_store true))) !! "count")
      [[increment; increment];
       [increment; increment; Navigate (Back 1)];
       [increment; increment; Navigate (Back 1); Navigate (Back 1)]]
  = [Some (VNum 2); Some (VNum 1); Some (VNum 0)].
Proof. vm_compute. reflexivity. Qed.

(** [set({ count: 10 })] merges, and [set({ count: 5, name: 'x' }, true)]
    replaces the data; [increment] is there after both. *)
Example counter_merge_and_replace :
  store (run_ops true counter_fns
           [increment; Dispatch (counter_data 10) (VBool false)]
           (counter_store true))
  = counter_state 10
  ∧ store (run_ops true counter_fns
             [increment;
              Dispatch (VObj false (<["name" := VStr "x"]>
                                      {["count" := VNum 5]})) (VBool true)]
             (counter_store true))
    = VObj false (<["name" := VStr "x"]>
                    (<["count" := VNum 5]> {["increment" := VFun 0]})).
Proof. split; vm_compute; reflexivity. Qed.

(** ** Where the code departs from a claim *)

(** C5, as stated, fails.  Creating the counter store logs
    [new Travels], then [isInitializing = false], then
    [travels.subscribe]: the phase is Active before the subscription is
    registered.  The closure left by the first two of these statements is
    Active and not subscribed. *)
Lemma phase_active_before_subscription :
  ¬ active_only_after_subscription
      (log (travelImpl (E:=History) true counter_fns counter VUndefined
              fresh).1)
  ∧ phase_of
      (Some (bind (new_Travels (E:=History) (counter_data 0)
                     (forced_options VUndefined))
                  (λ _, mark_complete) fresh).1) = Active
  ∧ subscribed
      (bind (new_Travels (E:=History) (counter_data 0)
               (forced_options VUndefined))
            (λ _, mark_complete) fresh).1 = false.
Proof.
  split; [|split; reflexivity].
  intros Hclaim.
  specialize (Hclaim [EvNew (counter_data 0) (forced_options VUndefined)]
                     [EvSubscribe; EvGetControls]).
  assert (Hlog : log (travelImpl (E:=History) true counter_fns counter
                        VUndefined fresh).1
                 = [EvNew (counter_data 0) (forced_options VUndefined)]
                   ++ EvActive :: [EvSubscribe; EvGetControls])
    by (vm_compute; reflexivity).
  apply Hclaim in Hlog. apply list_elem_of_singleton in Hlog. discriminate.
Qed.

(** C6, as stated, fails.  Without the development checks (as in the
    earlier revision, which has none) an initializer returning the array
    [[1]] creates a store: [create] returns the array and one engine has
    been constructed. *)
Lemma array_initial_state_accepted_without_checks :
  plain_object (array_of [VNum 1]) = false
  ∧ (create (E:=History) false counter_fns returns_array VUndefined).2
    = Normal (array_of [VNum 1])
  ∧ length (constructions
              (log (create (E:=History) false counter_fns returns_array
                      VUndefined).1)) = 1
  ∧ (Earlier.travelImpl (E:=History) counter_fns returns_array VUndefined
       fresh).2 = Normal (array_of [VNum 1]).
Proof. split_and!; vm_compute; reflexivity. Qed.

(** C7, as stated, fails.  While the store is initializing, [set(null)]
    completes normally under the development checks, and the host has
    been given the null; and without the checks, [set(null)] on the live
    counter store completes normally after one [travels.setState]. *)
Lemma null_updater_accepted :
  isInitializing (fresh : Closure History) = true
  ∧ (travelSet (E:=History) true counter_fns VNull VUndefined fresh).2
    = Normal tt
  ∧ log (travelSet (E:=History) true counter_fns VNull VUndefined fresh).1
    = [EvNativeSet VNull VUndefined]
  ∧ isInitializing (counter_store false) = false
  ∧ (travelSet false counter_fns VNull VUndefined (counter_store false)).2
    = Normal tt
  ∧ length (commits
              (log (travelSet false counter_fns VNull VUndefined
                      (counter_store false)).1)) = 1.
Proof. split_and!; vm_compute; reflexivity. Qed.

(** ** Further properties on the counter store *)




Lemma seeded_counter_created :
  (travelImpl (E:=History) true counter_fns seeded_counter VUndefined
     fresh).2 = Normal (counter_state 5).
Proof. vm_compute. reflexivity. Qed.

Lemma successful_initialization_witness :
  (travelImpl (E:=History) true counter_fns seeded_counter VUndefined
     fresh).2 = Normal (counter_state 5)
  ∧ commits (log (travelImpl (E:=History) true counter_fns seeded_counter
                    VUndefined fresh).1) = [].
Proof.
  split; [exact seeded_counter_created|].
  exact (proj1 (proj2 (@successful_initialization History _ counter_host _
                         true counter_fns seeded_counter VUndefined
                         (counter_state 5) seeded_counter_created))).
Defined.

Lemma array_rejected :
  (travelImpl (E:=History) true counter_fns returns_array VUndefined
     fresh).2 = Throw err_array.
Proof. vm_compute. reflexivity. Qed.

Lemma failed_initialization_witness :
  (travelImpl (E:=History) true counter_fns returns_array VUndefined
     fresh).2 = Throw err_array
  ∧ getControls (travelImpl (E:=History) true counter_fns returns_array
                   VUndefined fresh).1 = false.
Proof.
  split; [exact array_rejected|].
  destruct (@failed_initialization_wires_nothing History _ counter_host _ true
              counter_fns returns_array VUndefined err_array array_rejected)
    as (_ & _ & _ & Hg & _).
  exact Hg.
Defined.

Lemma live_store_witness :
  isInitializing (counter_store true) = false
  ∧ actions (run_ops true counter_fns
               [increment; Dispatch VNull VUndefined; Navigate (Back 1)]
               (counter_store true))
    = actions (counter_store true).
Proof.
  destruct (counter_store_wired true) as (Hi & _).
  split; [exact Hi|].
  exact (proj1 (@live_store_only_republishes History _ counter_host _ true
                  counter_fns
                  [increment; Dispatch VNull VUndefined; Navigate (Back 1)]
                  (counter_store true) Hi)).
Defined.

Lemma one_commit_witness :
  isInitializing (counter_store true) = false
  ∧ travels (counter_store true) = Some counter_engine
  ∧ commits (log (travelSet true counter_fns (counter_data 10) (VBool true)
                    (counter_store true)).1)
    = commits (log (counter_store true)) ++ [UValue (counter_data 10)].
Proof.
  destruct (counter_store_wired true) as (Hi & _ & He).
  split; [exact Hi|]. split; [exact He|].
  exact (@one_commit_per_dispatch History _ counter_host _ true counter_fns
           (counter_store true) counter_engine (counter_data 10) (VBool true)
           Hi He).
Defined.


Lemma dispatch_both_builds_witness :
  (isInitializing (counter_store true) = true ∨ nullish (VFun 2) = false)
  ∧ (travelSet true counter_fns (VFun 2) VUndefined (counter_store true)).2
    = (travelSet false counter_fns (VFun 2) VUndefined
         (counter_store true)).2.
Proof.
  split; [by right|].
  exact (proj1 (@dispatch_same_in_both_builds History _ counter_host _
                  counter_fns (counter_store true) (VFun 2) VUndefined
                  (or_intror eq_refl))).
Defined.

Lemma initialization_both_builds_witness :
  run_initializer false counter_fns counter (fresh : Closure History)
  = (fresh, Normal (counter_state 0))
  ∧ plain_object (counter_state 0) = true
  ∧ (travelImpl (E:=History) true counter_fns counter VUndefined fresh).2
    = (travelImpl (E:=History) false counter_fns counter VUndefined fresh).2.
Proof.
  do 2 (split; [reflexivity|]).
  exact (proj1 (@initialization_same_in_both_builds History _ counter_host _
                  counter_fns counter VUndefined fresh (counter_state 0)
                  eq_refl eq_refl)).
Defined.
